(** * electron-reload: the dual watch / reset coordination logic

    A shallow embedding of [electronReload] and [createHardResetHandler]
    (the module's only two functions) together with the collaborators
    they drive: the host's event emitters, the file watching service and
    the process spawner.  The collaborators are modelled as a small world
    state on which the module's calls act; every call that is observable
    from outside (spawn, unref, exit, quit, reloadIgnoringCache) is
    appended to a log. *)

From Stdlib Require Import ZArith Lia.
From stdpp Require Import base option list gmap strings.

(** ** JavaScript values the module handles *)

(** A [BrowserWindow] is an object; only its identity matters here
    ([indexOf] compares with [===]). *)
Abbreviation BrowserWindow := nat (only parsing).

(** Address of an array allocated by [const browserWindows = []]. *)
Abbreviation loc := nat (only parsing).

(** Entries of chokidar's [ignored] option (anymatch matchers).  The
    module builds two kinds: the regular expression [ignoredPaths] and
    plain strings. *)
Inductive matcher :=
| MIgnoredPaths
| MString (s : string).

(** Values of the [WatchOptions] properties that [ElectronReloadOptions]
    inherits. *)
Inductive wvalue :=
| WUndefined
| WBool (b : bool)
| WNumber (n : Z)
| WMatchers (ms : list matcher).

(** [interface ElectronReloadOptions extends WatchOptions]: the five own
    optional properties, and the inherited watch options as the object
    they are (a finite map from property names). *)
Record ElectronReloadOptions := {
  electron : option string;
  electronArgv : option (list string);
  appArgv : option (list string);
  hardResetMethod : option string;
  forceHardReset : option bool;
  watchOptions : gmap string wvalue }.

(** [Object.assign(target, source)]: own properties of [source] override
    those of [target]. *)
Definition Object_assign (target source : gmap string wvalue) : gmap string wvalue :=
  source ∪ target.

(** [x || []] on an optional array: arrays are truthy, [undefined] is not. *)
Definition or_empty (x : option (list string)) : list string :=
  match x with
  | Some a => a
  | None => []
  end.

(** Truthiness of an optional string: [undefined] and [""] are falsy. *)
Definition truthy (x : option string) : bool :=
  match x with
  | Some s => negb (String.eqb s "")
  | None => false
  end.

(** [Array.prototype.indexOf]: position of the first element identical to
    [x], or [-1]. *)
Fixpoint indexOf_from (l : list BrowserWindow) (x : BrowserWindow) (i : Z) : Z :=
  match l with
  | [] => (-1)%Z
  | y :: l' => if decide (y = x) then i else indexOf_from l' x (i + 1)%Z
  end.

Definition indexOf (l : list BrowserWindow) (x : BrowserWindow) : Z :=
  indexOf_from l x 0%Z.

(** [Array.prototype.splice(start, deleteCount)] without inserted items: a
    negative [start] counts from the end, both arguments are clamped. *)
Definition splice {A} (l : list A) (start deleteCount : Z) : list A :=
  let len := Z.of_nat (length l) in
  let s := if (start <? 0)%Z then Z.max (len + start) 0 else Z.min start len in
  let d := Z.min (Z.max deleteCount 0) (len - s) in
  take (Z.to_nat s) l ++ drop (Z.to_nat (s + d)) l.

(** ** Observable calls *)

Inductive effect :=
| Spawn (executable : string) (args : list string) (detached : bool) (stdio : string)
| ChildUnref
| AppExit
| AppQuit
| ReloadIgnoringCache (bw : BrowserWindow).

Global Instance effect_eq_dec : EqDecision effect.
Proof. solve_decision. Defined.

Definition is_spawn (e : effect) : bool :=
  match e with Spawn _ _ _ _ => true | _ => false end.

Definition is_reload (e : effect) : bool :=
  match e with ReloadIgnoringCache _ => true | _ => false end.

Definition is_termination (e : effect) : bool :=
  match e with AppExit | AppQuit => true | _ => false end.

(** ** Closures

    The two handlers are closures; a closure is represented by its code
    pointer and the variables it captured. *)
Inductive listener :=
| SoftReset (browserWindows : loc)
| HardReset (executable : option string) (hardResetMethod : option string)
            (eArgv aArgv : option (list string)).

Definition is_hard (h : listener) : bool :=
  match h with HardReset _ _ _ _ => true | SoftReset _ => false end.

(** ** The world the module acts on *)

(** A chokidar [FSWatcher]: what it watches, its options, its listeners for
    the ['change'] event in registration order (the flag is [true] for a
    listener added with [once]) and whether [close] was called. *)
Record FSWatcher := {
  w_paths : list string;
  w_options : gmap string wvalue;
  w_listeners : list (bool * listener);
  w_closed : bool }.

Record World := {
  heap : list (list BrowserWindow);
  watchers : list FSWatcher;
  created_listeners : list loc;
  closed_listeners : gmap BrowserWindow (list loc);
  log : list effect }.

Definition init : World :=
  {| heap := []; watchers := []; created_listeners := [];
     closed_listeners := ∅; log := [] |}.

Definition set_heap (h : list (list BrowserWindow)) (σ : World) : World :=
  {| heap := h; watchers := watchers σ; created_listeners := created_listeners σ;
     closed_listeners := closed_listeners σ; log := log σ |}.

Definition set_watchers (ws : list FSWatcher) (σ : World) : World :=
  {| heap := heap σ; watchers := ws; created_listeners := created_listeners σ;
     closed_listeners := closed_listeners σ; log := log σ |}.

Definition set_created_listeners (ls : list loc) (σ : World) : World :=
  {| heap := heap σ; watchers := watchers σ; created_listeners := ls;
     closed_listeners := closed_listeners σ; log := log σ |}.

Definition set_closed_listeners (m : gmap BrowserWindow (list loc)) (σ : World) : World :=
  {| heap := heap σ; watchers := watchers σ; created_listeners := created_listeners σ;
     closed_listeners := m; log := log σ |}.

Definition emit_effects (es : list effect) (σ : World) : World :=
  {| heap := heap σ; watchers := watchers σ; created_listeners := created_listeners σ;
     closed_listeners := closed_listeners σ; log := log σ ++ es |}.

(** The array stored at [l] (empty for an address never allocated). *)
Definition array_at (σ : World) (l : loc) : list BrowserWindow :=
  default [] (heap σ !! l).

(** Listeners of ["closed"] registered on the window [bw]. *)
Definition closed_listeners_of (σ : World) (bw : BrowserWindow) : list loc :=
  default [] (closed_listeners σ !! bw).

(** ** A state and exception monad for the setup code *)

Inductive result (A : Type) :=
| Ok (a : A)
| Throw (msg : string).
Arguments Ok {A} a.
Arguments Throw {A} msg.

Definition M (A : Type) : Type := World → World * result A.

Definition ret {A} (a : A) : M A := λ σ, (σ, Ok a).

Definition bind {A B} (m : M A) (k : A → M B) : M B :=
  λ σ, match m σ with
       | (σ', Ok a) => k a σ'
       | (σ', Throw msg) => (σ', Throw msg)
       end.

Definition throw {A} (msg : string) : M A := λ σ, (σ, Throw msg).

Definition modify (f : World → World) : M unit := λ σ, (f σ, Ok tt).

Notation "'let*' x ':=' m 'in' k" := (bind m (λ x, k))
  (at level 10, x name, m at level 100, k at level 200).
Notation "m ';;;' k" := (bind m (λ _, k))
  (at level 100, k at level 200, right associativity).

(** ** Collaborator calls used by the setup code *)

(** [[]]: a new empty array. *)
Definition new_array : M loc :=
  λ σ, (set_heap (heap σ ++ [[]]) σ, Ok (length (heap σ))).

(** [chokidar.watch(paths, options)]: a new open watcher without listeners. *)
Definition chokidar_watch (paths : string) (options : gmap string wvalue) : M nat :=
  λ σ, (set_watchers (watchers σ ++
          [{| w_paths := [paths]; w_options := options;
              w_listeners := []; w_closed := false |}]) σ,
        Ok (length (watchers σ))).

Definition add_listener (once : bool) (h : listener) (w : FSWatcher) : FSWatcher :=
  {| w_paths := w_paths w; w_options := w_options w;
     w_listeners := w_listeners w ++ [(once, h)]; w_closed := w_closed w |}.

Definition add_path (p : string) (w : FSWatcher) : FSWatcher :=
  {| w_paths := w_paths w ++ [p]; w_options := w_options w;
     w_listeners := w_listeners w; w_closed := w_closed w |}.

(** [close()] marks the watcher closed and removes all its listeners. *)
Definition close_watcher (w : FSWatcher) : FSWatcher :=
  {| w_paths := w_paths w; w_options := w_options w;
     w_listeners := []; w_closed := true |}.

Definition update_watcher (i : nat) (f : FSWatcher → FSWatcher) (σ : World) : World :=
  set_watchers (alter f i (watchers σ)) σ.

(** [watcher.on("change", h)] *)
Definition watcher_on (i : nat) (h : listener) : M unit :=
  modify (update_watcher i (add_listener false h)).

(** [watcher.once("change", h)] *)
Definition watcher_once (i : nat) (h : listener) : M unit :=
  modify (update_watcher i (add_listener true h)).

(** [watcher.add(p)] *)
Definition watcher_add (i : nat) (p : string) : M unit :=
  modify (update_watcher i (add_path p)).

(** [watcher.close()] *)
Definition watcher_close (i : nat) : M unit :=
  modify (update_watcher i close_watcher).

(** [app.on("browser-window-created", ...)]: the listener is the closure of
    lines 103-111 over [browserWindows]. *)
Definition app_on_browser_window_created (browserWindows : loc) : M unit :=
  modify (λ σ, set_created_listeners (created_listeners σ ++ [browserWindows]) σ).

Definition error_message : string :=
  "Provided electron executable cannot be found or is not executable!".

(** The regular expression [/node_modules|[/\\]\./] tested on a path. *)
Fixpoint contains (needle hay : string) : bool :=
  match hay with
  | EmptyString => String.eqb needle ""
  | String _ hay' => String.prefix needle hay || contains needle hay'
  end.

Definition ignoredPaths (p : string) : bool :=
  contains "node_modules" p || contains "/." p || contains "\." p.

(** Case analysis on a listener of a watcher of an explicit world. *)
Ltac listener_cases :=
  let w := fresh "w" in let f := fresh "f" in
  let Hw := fresh "Hw" in let Hf := fresh "Hf" in
  intros w f Hw Hf;
  repeat (apply elem_of_cons in Hw as [->|Hw]);
  try (by apply elem_of_nil in Hw);
  simpl in Hf;
  repeat (apply elem_of_cons in Hf as [->|Hf]);
  try (by apply elem_of_nil in Hf); try done.

(** ** The module, over its environment *)

Section electron_reload.

Set Default Proof Using "Type".

(** [app.getAppPath()], read once when the module is loaded. *)
Variable appPath : string.

(** [fs.existsSync]: the state of the file system at setup time. *)
Variable existsSync : string → bool.

(** How the watching service matches a watched path or glob, or a string
    matcher of [ignored], against the path of a changed file. *)
Variable glob_match : string → string → bool.

(** The body of the closure returned by [createHardResetHandler]: the
    calls it makes, in order. *)
Definition createHardResetHandler
    (executable : option string) (hardResetMethod : option string)
    (eArgv aArgv : option (list string)) : list effect :=
  match executable with
  | Some exe =>
      if negb (truthy executable) then []
      else
        let args := (or_empty eArgv ++ [appPath]) ++ or_empty aArgv in
        [Spawn exe args true "inherit"; ChildUnref] ++
        (if decide (hardResetMethod = Some "exit") then [AppExit] else [AppQuit])
  | None => []
  end.

(** The body of [softResetHandler], given the current contents of
    [browserWindows]. *)
Definition softResetHandler (browserWindows : list BrowserWindow) : list effect :=
  (λ bw, ReloadIgnoringCache bw) <$> browserWindows.

Definition electronReload (glob mainFile : string)
    (options : ElectronReloadOptions) : M unit :=
  let* browserWindows := new_array in
  let* watcher :=
    chokidar_watch glob
      (Object_assign {[ "ignored" := WMatchers [MIgnoredPaths; MString mainFile] ]}
                     (watchOptions options)) in
  let executable := electron options in
  let hardResetHandler :=
    HardReset executable (hardResetMethod options)
              (electronArgv options) (appArgv options) in
  app_on_browser_window_created browserWindows;;;
  watcher_on watcher (SoftReset browserWindows);;;
  if truthy executable then
    if negb (existsSync (default "" executable)) then throw error_message
    else
      let* hardWatcher :=
        chokidar_watch mainFile
          (Object_assign {[ "ignored" := WMatchers [MIgnoredPaths] ]}
                         (watchOptions options)) in
      (if decide (forceHardReset options = Some true)
       then watcher_add hardWatcher glob;;; watcher_close watcher
       else ret tt);;;
      watcher_once hardWatcher hardResetHandler
  else ret tt.

(** ** Events delivered by the host's event loop

    [FsChange p] is one report of the watching service: a file changed, seen
    under the path [p].  A file that two watchers see under different path
    forms (a relative glob and an absolute entry-point path, say) gives one
    such event for each form. *)

Inductive event :=
| FsChange (path : string)
| WindowCreated (bw : BrowserWindow)
| WindowClosed (bw : BrowserWindow).

(** Running one listener of a watcher's ['change'] event. *)
Definition run_listener (h : listener) (σ : World) : World :=
  match h with
  | SoftReset l => emit_effects (softResetHandler (array_at σ l)) σ
  | HardReset exe m e a => emit_effects (createHardResetHandler exe m e a) σ
  end.

Definition run_listeners (hs : list (bool * listener)) (σ : World) : World :=
  foldl (λ σ h, run_listener h.2 σ) σ hs.

Definition drop_once (w : FSWatcher) : FSWatcher :=
  {| w_paths := w_paths w; w_options := w_options w;
     w_listeners := filter (λ h, h.1 = false) (w_listeners w);
     w_closed := w_closed w |}.

(** The matchers in effect for a watcher. *)
Definition ignored_of (o : gmap string wvalue) : list matcher :=
  match o !! "ignored" with
  | Some (WMatchers ms) => ms
  | _ => []
  end.

Definition matcher_test (m : matcher) (p : string) : bool :=
  match m with
  | MIgnoredPaths => ignoredPaths p
  | MString s => glob_match s p
  end.

(** Does the watcher report a change of the file at [p]? *)
Definition reports (w : FSWatcher) (p : string) : bool :=
  negb (w_closed w)
  && existsb (λ t, glob_match t p) (w_paths w)
  && negb (existsb (λ m, matcher_test m p) (ignored_of (w_options w))).

(** The watcher [i] emits ['change']: its listeners run in registration
    order, the one-shot ones are removed. *)
Definition emit_change (i : nat) (σ : World) : World :=
  match watchers σ !! i with
  | Some w => run_listeners (w_listeners w) (update_watcher i drop_once σ)
  | None => σ
  end.

Definition notify (p : string) (σ : World) (i : nat) : World :=
  match watchers σ !! i with
  | Some w => if reports w p then emit_change i σ else σ
  | None => σ
  end.

(** The closure of lines 103-111 called with [bw]. *)
Definition on_created (bw : BrowserWindow) (σ : World) (l : loc) : World :=
  let σ1 := set_heap (alter (λ a, a ++ [bw]) l (heap σ)) σ in
  set_closed_listeners (<[bw := closed_listeners_of σ1 bw ++ [l]]> (closed_listeners σ1)) σ1.

(** The closure of lines 107-110 for the window [bw]. *)
Definition on_closed (bw : BrowserWindow) (σ : World) (l : loc) : World :=
  let i := indexOf (array_at σ l) bw in
  set_heap (alter (λ a, splice a i 1) l (heap σ)) σ.

Definition dispatch (σ : World) (ev : event) : World :=
  match ev with
  | FsChange p => foldl (notify p) σ (seq 0 (length (watchers σ)))
  | WindowCreated bw => foldl (on_created bw) σ (created_listeners σ)
  | WindowClosed bw => foldl (on_closed bw) σ (closed_listeners_of σ bw)
  end.

Definition run (evs : list event) (σ : World) : World :=
  foldl dispatch σ evs.

(** ** Worlds reached by the setup code

    The world in which [electronReload] leaves its caller on each of its
    four paths, written out; [electronReload_no_executable] and the three
    lemmas after it show that the code above computes them. *)

Definition soft_options (mainFile : string) (options : ElectronReloadOptions) :=
  Object_assign {[ "ignored" := WMatchers [MIgnoredPaths; MString mainFile] ]}
                (watchOptions options).

Definition hard_options (options : ElectronReloadOptions) :=
  Object_assign {[ "ignored" := WMatchers [MIgnoredPaths] ]} (watchOptions options).

Definition hard_listener (options : ElectronReloadOptions) : listener :=
  HardReset (electron options) (hardResetMethod options)
            (electronArgv options) (appArgv options).

(** After lines 83-114: array, soft watcher with its listener, and the
    listener of ["browser-window-created"]. *)
Definition soft_stage (glob mainFile : string) (options : ElectronReloadOptions)
    (σ : World) : World :=
  {| heap := heap σ ++ [[]];
     watchers := watchers σ ++
       [{| w_paths := [glob]; w_options := soft_options mainFile options;
           w_listeners := [(false, SoftReset (length (heap σ)))];
           w_closed := false |}];
     created_listeners := created_listeners σ ++ [length (heap σ)];
     closed_listeners := closed_listeners σ;
     log := log σ |}.

(** After line 137 when [forceHardReset] is not [true]. *)
Definition hard_stage (glob mainFile : string) (options : ElectronReloadOptions)
    (σ : World) : World :=
  {| heap := heap σ ++ [[]];
     watchers := watchers σ ++
       [{| w_paths := [glob]; w_options := soft_options mainFile options;
           w_listeners := [(false, SoftReset (length (heap σ)))];
           w_closed := false |};
        {| w_paths := [mainFile]; w_options := hard_options options;
           w_listeners := [(true, hard_listener options)];
           w_closed := false |}];
     created_listeners := created_listeners σ ++ [length (heap σ)];
     closed_listeners := closed_listeners σ;
     log := log σ |}.

(** After line 137 when [forceHardReset] is [true]. *)
Definition forced_stage (glob mainFile : string) (options : ElectronReloadOptions)
    (σ : World) : World :=
  {| heap := heap σ ++ [[]];
     watchers := watchers σ ++
       [{| w_paths := [glob]; w_options := soft_options mainFile options;
           w_listeners := []; w_closed := true |};
        {| w_paths := [mainFile; glob]; w_options := hard_options options;
           w_listeners := [(true, hard_listener options)];
           w_closed := false |}];
     created_listeners := created_listeners σ ++ [length (heap σ)];
     closed_listeners := closed_listeners σ;
     log := log σ |}.

(** ** One change of the file system, seen as a whole

    What a listener, and all listeners of a watcher that reports the change,
    append to the log; [dispatch_FsChange] shows that the event loop above
    computes exactly this. *)

Definition listener_effects (h : list (list BrowserWindow)) (f : listener) : list effect :=
  match f with
  | SoftReset l => softResetHandler (default [] (h !! l))
  | HardReset exe m e a => createHardResetHandler exe m e a
  end.

Definition watcher_effects (h : list (list BrowserWindow)) (p : string)
    (w : FSWatcher) : list effect :=
  if reports w p
  then w_listeners w ≫= (λ f, listener_effects h f.2)
  else [].

Definition after_change (p : string) (w : FSWatcher) : FSWatcher :=
  if reports w p then drop_once w else w.

(** ** Window life cycles *)

Definition created_of (evs : list event) : list BrowserWindow :=
  evs ≫= (λ e, match e with WindowCreated bw => [bw] | _ => [] end).

Definition closed_of (evs : list event) : list BrowserWindow :=
  evs ≫= (λ e, match e with WindowClosed bw => [bw] | _ => [] end).

(** What the window life cycle source delivers: a handle is announced by
    ["browser-window-created"] once, and emits ["closed"] once. *)
Definition lifecycle_ok (evs : list event) : Prop :=
  NoDup (created_of evs) ∧ NoDup (closed_of evs).

(** [bw] was created and has not been closed since. *)
Definition open_after (evs : list event) (bw : BrowserWindow) : Prop :=
  ∃ pre post, evs = pre ++ WindowCreated bw :: post ∧ WindowClosed bw ∉ post.

(** The registry of a process in which [electronReload] was called once,
    after the events [evs]: the array at address 0 holds the open windows,
    each once, and each created window carries the one ["closed"] listener
    of lines 107-110. *)
Definition registry_inv (evs : list event) (σ : World) : Prop :=
  created_listeners σ = [0] ∧
  (∃ L, heap σ = [L] ∧ NoDup L ∧ ∀ bw, bw ∈ L ↔ open_after evs bw) ∧
  ∀ bw, closed_listeners_of σ bw = if decide (bw ∈ created_of evs) then [0] else [].

(** ** Shapes of the watchers of one coordinator

    The soft watcher either still has its one continuous listener or was
    closed; the hard watcher has its one-shot listener until it fires. *)

Definition soft_shape (l : loc) (w : FSWatcher) : Prop :=
  (w_listeners w = [(false, SoftReset l)] ∧ w_closed w = false) ∨
  (w_listeners w = [] ∧ w_closed w = true).

Definition hard_shape (options : ElectronReloadOptions) (w : FSWatcher) : Prop :=
  w_listeners w = [(true, hard_listener options)] ∨ w_listeners w = [].

Definition watchers_inv (options : ElectronReloadOptions) (ws : list FSWatcher) : Prop :=
  ∃ sw, soft_shape 0 sw ∧
    (ws = [sw] ∨
     ∃ hw, ws = [sw; hw] ∧ hard_shape options hw ∧ truthy (electron options) = true).

(** Hard-reset listeners still waiting on some watcher. *)
Definition pending (ws : list FSWatcher) : nat :=
  length (ws ≫= (λ w, filter (λ f, is_hard f.2 = true) (w_listeners w))).

Definition spawns (es : list effect) : nat :=
  length (filter (λ e, is_spawn e = true) es).

(** The argument list of line 32, as the documentation states it. *)
Definition relaunch_args (options : ElectronReloadOptions) : list string :=
  or_empty (electronArgv options) ++ [appPath] ++ or_empty (appArgv options).

(** A log in which every termination call directly follows the spawn of a
    detached child with inherited streams and the release of its handle. *)
Inductive ordered : list effect → Prop :=
| ordered_nil : ordered []
| ordered_reload bw es :
    ordered es → ordered (ReloadIgnoringCache bw :: es)
| ordered_hard_reset exe args t es :
    is_termination t = true → ordered es →
    ordered (Spawn exe args true "inherit" :: ChildUnref :: t :: es).

(** A spawn call as line 33 makes it for [options]. *)
Definition relaunch_ok (options : ElectronReloadOptions)
    (e : effect) : Prop :=
  ∀ exe args d s, e = Spawn exe args d s →
    electron options = Some exe ∧ args = relaunch_args options ∧
    d = true ∧ s = "inherit".

(** What the step from [σ] to [σ'] appended to the log. *)
Definition appended (σ σ' : World) : list effect :=
  drop (length (log σ)) (log σ').

(** Calls of [reloadIgnoringCache] on the window [bw]. *)
Definition reloads_of (bw : BrowserWindow) (es : list effect) : nat :=
  length (filter (λ e, e = ReloadIgnoringCache bw) es).

(** One-shot registration of every hard-reset listener, and the bound it
    gives on the spawns of a process with at most [n] of them. *)
Definition once_inv (n : nat) (σ : World) : Prop :=
  (∀ w f, w ∈ watchers σ → f ∈ w_listeners w → is_hard f.2 = true → f.1 = true) ∧
  spawns (log σ) + pending (watchers σ) ≤ n.

(** No open watcher has a soft-reset listener, and nothing was reloaded. *)
Definition hard_only_inv (σ : World) : Prop :=
  (∀ w f, w ∈ watchers σ → w_closed w = false → f ∈ w_listeners w →
          is_hard f.2 = true) ∧
  Forall (λ e, is_reload e = false) (log σ).


(** Every hard-reset listener is the one built from [options], and every
    spawn in the log is the one it makes. *)
Definition relaunch_inv (options : ElectronReloadOptions)
    (σ : World) : Prop :=
  (∀ w f, w ∈ watchers σ → f ∈ w_listeners w → is_hard f.2 = true →
          f.2 = hard_listener options) ∧
  Forall (relaunch_ok options) (log σ).

(** ** Sample environment for closed instances *)

(** A matcher for examples: ["*"] matches every path, any other pattern
    matches itself only. *)
Definition sample_match (pat p : string) : bool :=
  String.eqb pat "*" || String.eqb pat p.

Definition no_options : ElectronReloadOptions :=
  {| electron := None; electronArgv := None; appArgv := None;
     hardResetMethod := None; forceHardReset := None; watchOptions := ∅ |}.

Definition with_electron (exe : string) (force : option bool) : ElectronReloadOptions :=
  {| electron := Some exe; electronArgv := Some ["--inspect"];
     appArgv := Some ["--dev"]; hardResetMethod := Some "exit";
     forceHardReset := force; watchOptions := ∅ |}.

Definition with_ignored (ms : list matcher) : ElectronReloadOptions :=
  {| electron := None; electronArgv := None; appArgv := None;
     hardResetMethod := None; forceHardReset := None;
     watchOptions := {[ "ignored" := WMatchers ms ]} |}.

(** What holds right after one call in a fresh process. *)
Definition fresh_facts (options : ElectronReloadOptions)
    (σ0 : World) : Prop :=
  registry_inv [] σ0 ∧ log σ0 = [] ∧ once_inv 1 σ0 ∧
  relaunch_inv options σ0 ∧ watchers_inv options (watchers σ0).

(** What two worlds share when they agree on the array at [l] and on the
    window listeners that captured [l]. *)
Definition same_view (l : loc) (σ τ : World) : Prop :=
  heap σ !! l = heap τ !! l ∧
  filter (λ x, x = l) (created_listeners σ) = filter (λ x, x = l) (created_listeners τ) ∧
  ∀ bw, filter (λ x, x = l) (closed_listeners_of σ bw)
        = filter (λ x, x = l) (closed_listeners_of τ bw).

(** ** Further notions *)

(** [needle] occurs in [hay]. *)
Definition occurs (needle hay : string) : Prop :=
  ∃ before after, hay = before +:+ needle +:+ after.

(** The three calls of one hard reset for [options] and executable [exe]. *)
Definition hard_reset_calls (options : ElectronReloadOptions) (exe : string)
    : list effect :=
  [Spawn exe (default [] (electronArgv options) ++ [appPath]
              ++ default [] (appArgv options)) true "inherit";
   ChildUnref;
   if decide (hardResetMethod options = Some "exit") then AppExit else AppQuit].


Definition closed_watcher0 (glob mainFile : string) (options : ElectronReloadOptions)
    : FSWatcher :=
  {| w_paths := [glob]; w_options := soft_options mainFile options;
     w_listeners := []; w_closed := true |}.

Definition hard_watcher0 (paths : list string) (options : ElectronReloadOptions)
    (fired : bool) : FSWatcher :=
  {| w_paths := paths; w_options := hard_options options;
     w_listeners := if fired then [] else [(true, hard_listener options)];
     w_closed := false |}.


(** The state of a fresh process set up with [forceHardReset]. *)
Definition forced_inv (glob mainFile : string) (options : ElectronReloadOptions)
    (exe : string) (σ : World) : Prop :=
  ∃ fired : bool,
    watchers σ = [closed_watcher0 glob mainFile options;
                  hard_watcher0 [mainFile; glob] options fired] ∧
    log σ = (if fired then hard_reset_calls options exe else []).

(** Every watcher excludes what [ignoredPaths] matches. *)
Definition default_ignored_inv (σ : World) : Prop :=
  ∀ w, w ∈ watchers σ → MIgnoredPaths ∈ ignored_of (w_options w).

(** The array at [l] in [σ] and the one at [l'] in [τ] are equal and have
    equally many window listeners. *)
Definition same_view_at (l : loc) (σ : World) (l' : loc) (τ : World) : Prop :=
  heap σ !! l = heap τ !! l' ∧
  length (filter (λ x, x = l) (created_listeners σ))
  = length (filter (λ x, x = l') (created_listeners τ)) ∧
  ∀ bw, length (filter (λ x, x = l) (closed_listeners_of σ bw))
        = length (filter (λ x, x = l') (closed_listeners_of τ bw)).

(** All window listeners of the process captured the array at 0. *)
Definition single_inv (σ : World) : Prop :=
  created_listeners σ = [0] ∧
  length (heap σ) = 1 ∧
  ∀ bw l, l ∈ closed_listeners_of σ bw → l = 0.

(** The options with the property [forceHardReset] replaced. *)
Definition set_forceHardReset (force : option bool) (options : ElectronReloadOptions)
    : ElectronReloadOptions :=
  {| electron := electron options; electronArgv := electronArgv options;
     appArgv := appArgv options; hardResetMethod := hardResetMethod options;
     forceHardReset := force; watchOptions := watchOptions options |}.

Definition is_window_event (ev : event) : bool :=
  match ev with FsChange _ => false | _ => true end.

(** The options with the property [electron] removed. *)
Definition without_electron (options : ElectronReloadOptions) : ElectronReloadOptions :=
  {| electron := None; electronArgv := electronArgv options;
     appArgv := appArgv options; hardResetMethod := hardResetMethod options;
     forceHardReset := forceHardReset options; watchOptions := watchOptions options |}.

(** * Verification *)

(** ** Arrays: [indexOf] and [splice] *)

Lemma indexOf_from_notin (l : list BrowserWindow) x i :
  x ∉ l → indexOf_from l x i = (-1)%Z.
Proof.
  revert i. induction l as [|y l IH]; intros i Hx; simpl; [done|].
  apply not_elem_of_cons in Hx as [Hne Hx].
  destruct (decide (y = x)); [congruence|]. by apply IH.
Qed.

Lemma indexOf_from_split (l : list BrowserWindow) x i :
  x ∈ l →
  ∃ pre post, (l = pre ++ x :: post) ∧ (x ∉ pre) ∧
              indexOf_from l x i = (i + Z.of_nat (length pre))%Z.
Proof.
  revert i. induction l as [|y l IH]; intros i Hx; [by apply elem_of_nil in Hx|].
  simpl. destruct (decide (y = x)) as [->|Hne].
  - exists [], l. split_and!; [done|apply not_elem_of_nil|simpl; lia].
  - apply elem_of_cons in Hx as [->|Hx]; [done|].
    destruct (IH (i + 1)%Z Hx) as (pre & post & -> & Hpre & Hi).
    exists (y :: pre), post. split_and!; [done| |].
    + apply not_elem_of_cons. split; [congruence|done].
    + rewrite Hi. simpl length. lia.
Qed.

Lemma splice_one_at {A} (pre post : list A) x :
  splice (pre ++ x :: post) (Z.of_nat (length pre)) 1 = pre ++ post.
Proof.
  unfold splice. rewrite length_app. simpl length.
  assert (Hlt : (Z.of_nat (length pre) <? 0)%Z = false) by (apply Z.ltb_ge; lia).
  rewrite Hlt.
  replace (Z.min (Z.of_nat (length pre)) (Z.of_nat (length pre + S (length post))))
    with (Z.of_nat (length pre)) by lia.
  replace (Z.min (Z.max 1 0)
             (Z.of_nat (length pre + S (length post)) - Z.of_nat (length pre)))
    with 1%Z by lia.
  replace (Z.to_nat (Z.of_nat (length pre) + 1)) with (length pre + 1) by lia.
  rewrite Nat2Z.id, take_app_length.
  rewrite drop_app_add'; [|done]. done.
Qed.

Lemma splice_minus_one {A} (l : list A) :
  splice l (-1) 1 = take (length l - 1) l.
Proof.
  unfold splice. change (-1 <? 0)%Z with true. cbv iota.
  destruct l as [|a l]; [done|].
  set (n := length (a :: l)).
  assert (1 ≤ n) by (unfold n; simpl; lia).
  replace (Z.max (Z.of_nat n + -1) 0) with (Z.of_nat (n - 1)) by lia.
  replace (Z.of_nat (n - 1) + Z.min (Z.max 1 0) (Z.of_nat n - Z.of_nat (n - 1)))%Z
    with (Z.of_nat n) by lia.
  rewrite !Nat2Z.id. unfold n. rewrite drop_all. by rewrite app_nil_r.
Qed.

Lemma filter_all {A} (P : A → Prop) `{∀ x, Decision (P x)} (l : list A) :
  (∀ x, x ∈ l → P x) → filter P l = l.
Proof.
  induction l as [|a l IH]; intros Hall; [done|].
  rewrite filter_cons_True by (apply Hall; left).
  f_equal. apply IH. intros x Hx. apply Hall. by right.
Qed.

(** Removing a tracked window by its current index removes it and nothing
    else, and keeps the order of the others. *)
Lemma splice_indexOf_tracked (l : list BrowserWindow) x :
  NoDup l → x ∈ l →
  splice l (indexOf l x) 1 = filter (λ y, y ≠ x) l.
Proof.
  clear appPath existsSync glob_match.
  intros Hnd Hx. unfold indexOf.
  destruct (indexOf_from_split l x 0 Hx) as (pre & post & -> & Hpre & ->).
  rewrite Z.add_0_l, splice_one_at.
  apply NoDup_app in Hnd as (_ & Hdisj & Hnd).
  apply NoDup_cons in Hnd as [Hpost _].
  rewrite filter_app, filter_cons_False by naive_solver.
  f_equal; symmetry; apply filter_all; naive_solver.
Qed.

(** A window that is not tracked has index [-1], and [splice(-1, 1)]
    removes the last element of the array, whichever window that is. *)
Lemma splice_indexOf_untracked (l : list BrowserWindow) x :
  x ∉ l → splice l (indexOf l x) 1 = take (length l - 1) l.
Proof.
  intros Hx. unfold indexOf. rewrite indexOf_from_notin by done.
  apply splice_minus_one.
Qed.

(** ** The four paths through [electronReload] *)

Lemma alter_last {A} (f : A → A) (l : list A) (x : A) :
  alter f (length l) (l ++ [x]) = l ++ [f x].
Proof.
  replace (length l) with (length l + 0) by lia. by rewrite alter_app_r.
Qed.

Lemma alter_last_but_one {A} (f : A → A) (l : list A) (x y : A) :
  alter f (length l) (l ++ [x; y]) = l ++ [f x; y].
Proof.
  replace (length l) with (length l + 0) by lia. by rewrite alter_app_r.
Qed.

Lemma alter_last_of_two {A} (f : A → A) (l : list A) (x y : A) :
  alter f (S (length l)) (l ++ [x; y]) = l ++ [x; f y].
Proof.
  replace (S (length l)) with (length l + 1) by lia. by rewrite alter_app_r.
Qed.

Lemma electronReload_no_executable glob mainFile options σ :
  truthy (electron options) = false →
  electronReload glob mainFile options σ
  = (soft_stage glob mainFile options σ, Ok tt).
Proof.
  intros Hf. unfold electronReload. rewrite Hf.
  unfold bind, new_array, chokidar_watch, app_on_browser_window_created,
    watcher_on, modify, update_watcher, soft_stage, ret. simpl.
  by rewrite alter_last.
Qed.

Lemma electronReload_missing_executable glob mainFile options σ :
  truthy (electron options) = true →
  existsSync (default "" (electron options)) = false →
  electronReload glob mainFile options σ
  = (soft_stage glob mainFile options σ, Throw error_message).
Proof.
  intros Ht He. unfold electronReload. rewrite Ht, He.
  unfold bind, new_array, chokidar_watch, app_on_browser_window_created,
    watcher_on, modify, update_watcher, soft_stage, throw. simpl.
  by rewrite alter_last.
Qed.

Lemma electronReload_hard glob mainFile options σ :
  truthy (electron options) = true →
  existsSync (default "" (electron options)) = true →
  forceHardReset options ≠ Some true →
  electronReload glob mainFile options σ
  = (hard_stage glob mainFile options σ, Ok tt).
Proof.
  intros Ht He Hf. unfold electronReload. rewrite Ht, He.
  destruct (decide (forceHardReset options = Some true)); [done|].
  unfold bind, new_array, chokidar_watch, app_on_browser_window_created,
    watcher_on, watcher_once, modify, update_watcher, hard_stage, ret,
    set_watchers, set_heap, set_created_listeners. simpl.
  rewrite !alter_last. by rewrite <- app_assoc.
Qed.

Lemma electronReload_forced glob mainFile options σ :
  truthy (electron options) = true →
  existsSync (default "" (electron options)) = true →
  forceHardReset options = Some true →
  electronReload glob mainFile options σ
  = (forced_stage glob mainFile options σ, Ok tt).
Proof.
  intros Ht He Hf. unfold electronReload. rewrite Ht, He.
  destruct (decide (forceHardReset options = Some true)); [|done].
  unfold bind, new_array, chokidar_watch, app_on_browser_window_created,
    watcher_on, watcher_once, watcher_add, watcher_close, modify,
    update_watcher, forced_stage, ret,
    set_watchers, set_heap, set_created_listeners. simpl.
  rewrite !alter_last, <- app_assoc. simpl.
  rewrite alter_last_but_one, length_app. simpl.
  replace (length (watchers σ) + 1) with (S (length (watchers σ))) by lia.
  by rewrite alter_last_of_two.
Qed.

(** Every call takes one of the four paths. *)
Lemma electronReload_cases glob mainFile options σ :
  electronReload glob mainFile options σ ∈
    [ (soft_stage glob mainFile options σ, Ok tt);
      (soft_stage glob mainFile options σ, Throw error_message);
      (hard_stage glob mainFile options σ, Ok tt);
      (forced_stage glob mainFile options σ, Ok tt) ].
Proof.
  clear glob_match.
  destruct (truthy (electron options)) eqn:Ht.
  - destruct (existsSync (default "" (electron options))) eqn:He.
    + destruct (decide (forceHardReset options = Some true)) as [Hf|Hf].
      * rewrite electronReload_forced by done. set_solver.
      * rewrite electronReload_hard by done. set_solver.
    + rewrite electronReload_missing_executable by done. set_solver.
  - rewrite electronReload_no_executable by done. set_solver.
Qed.

Lemma truthy_Some exe : exe ≠ "" → truthy (Some exe) = true.
Proof.
  intros Hne. simpl. destruct (String.eqb_spec exe ""); [done|done].
Qed.

(** ** The event loop *)

Lemma emit_effects_nil σ : emit_effects [] σ = σ.
Proof. destruct σ. unfold emit_effects. simpl. by rewrite app_nil_r. Qed.

Lemma emit_effects_app es1 es2 σ :
  emit_effects es2 (emit_effects es1 σ) = emit_effects (es1 ++ es2) σ.
Proof. unfold emit_effects. simpl. by rewrite app_assoc. Qed.

Lemma run_listener_spec f σ :
  run_listener f σ = emit_effects (listener_effects (heap σ) f) σ.
Proof. by destruct f. Qed.

Lemma run_listeners_spec hs σ :
  run_listeners hs σ = emit_effects (hs ≫= (λ f, listener_effects (heap σ) f.2)) σ.
Proof.
  unfold run_listeners. revert σ.
  induction hs as [|f hs IH]; intros σ; simpl.
  - by rewrite emit_effects_nil.
  - rewrite IH, run_listener_spec, emit_effects_app. done.
Qed.

Lemma notify_spec p σ pre w rest :
  watchers σ = pre ++ w :: rest →
  notify p σ (length pre)
  = {| heap := heap σ;
       watchers := pre ++ after_change p w :: rest;
       created_listeners := created_listeners σ;
       closed_listeners := closed_listeners σ;
       log := log σ ++ watcher_effects (heap σ) p w |}.
Proof.
  intros Hw. unfold notify, watcher_effects, after_change.
  assert (Hi : watchers σ !! length pre = Some w).
  { rewrite Hw. by rewrite list_lookup_middle. }
  rewrite Hi. destruct (reports w p).
  - unfold emit_change. rewrite Hi, run_listeners_spec.
    unfold emit_effects, update_watcher, set_watchers. simpl.
    rewrite Hw. f_equal.
    replace (length pre) with (length pre + 0) by lia.
    by rewrite alter_app_r.
  - destruct σ; simpl in *. rewrite app_nil_r. by subst.
Qed.

Lemma foldl_notify p rest : ∀ pre σ,
  watchers σ = pre ++ rest →
  foldl (notify p) σ (seq (length pre) (length rest))
  = {| heap := heap σ;
       watchers := pre ++ (after_change p <$> rest);
       created_listeners := created_listeners σ;
       closed_listeners := closed_listeners σ;
       log := log σ ++ (rest ≫= watcher_effects (heap σ) p) |}.
Proof.
  induction rest as [|w rest IH]; intros pre σ Hw; simpl.
  - destruct σ; simpl in *. rewrite app_nil_r in Hw. rewrite !app_nil_r. by subst.
  - rewrite (notify_spec p σ pre w rest Hw).
    specialize (IH (pre ++ [after_change p w])).
    rewrite length_app in IH. simpl in IH.
    replace (length pre + 1) with (S (length pre)) in IH by lia.
    rewrite IH by (simpl; by rewrite <- app_assoc).
    simpl. by rewrite <- !app_assoc.
Qed.

(** A change of the file at [p]: every watcher that reports it runs its
    listeners and loses the one-shot ones; nothing else changes. *)
Lemma dispatch_FsChange p σ :
  dispatch σ (FsChange p)
  = {| heap := heap σ;
       watchers := after_change p <$> watchers σ;
       created_listeners := created_listeners σ;
       closed_listeners := closed_listeners σ;
       log := log σ ++ (watchers σ ≫= watcher_effects (heap σ) p) |}.
Proof. exact (foldl_notify p (watchers σ) [] σ eq_refl). Qed.

(** Window events leave watchers and log alone. *)
Lemma foldl_on_created_frame bw ls : ∀ σ,
  watchers (foldl (on_created bw) σ ls) = watchers σ ∧
  log (foldl (on_created bw) σ ls) = log σ ∧
  created_listeners (foldl (on_created bw) σ ls) = created_listeners σ.
Proof.
  induction ls as [|l ls IH]; intros σ; simpl; [done|].
  destruct (IH (on_created bw σ l)) as (-> & -> & ->). done.
Qed.

Lemma foldl_on_closed_frame bw ls : ∀ σ,
  watchers (foldl (on_closed bw) σ ls) = watchers σ ∧
  log (foldl (on_closed bw) σ ls) = log σ ∧
  created_listeners (foldl (on_closed bw) σ ls) = created_listeners σ ∧
  closed_listeners (foldl (on_closed bw) σ ls) = closed_listeners σ.
Proof.
  induction ls as [|l ls IH]; intros σ; simpl; [done|].
  destruct (IH (on_closed bw σ l)) as (-> & -> & -> & ->). done.
Qed.

Lemma dispatch_window_frame σ ev :
  (∀ p, ev ≠ FsChange p) →
  watchers (dispatch σ ev) = watchers σ ∧ log (dispatch σ ev) = log σ.
Proof.
  intros Hev. destruct ev as [p|bw|bw]; simpl.
  - by destruct (Hev p).
  - destruct (foldl_on_created_frame bw (created_listeners σ) σ) as (-> & -> & _). done.
  - destruct (foldl_on_closed_frame bw (closed_listeners_of σ bw) σ) as (-> & -> & _). done.
Qed.

(** An event is a change of the file system, or leaves watchers and log
    as they are. *)
Lemma dispatch_cases σ ev :
  (∃ p, ev = FsChange p) ∨
  (watchers (dispatch σ ev) = watchers σ ∧ log (dispatch σ ev) = log σ).
Proof.
  destruct ev as [p|bw|bw]; [left; by exists p|right..];
    by apply dispatch_window_frame.
Qed.

Lemma run_snoc evs ev σ : run (evs ++ [ev]) σ = dispatch (run evs σ) ev.
Proof. unfold run. by rewrite foldl_app. Qed.

(** Invariants of the event loop are invariants of every run. *)
Lemma run_invariant (Inv : World → Prop) :
  (∀ σ ev, Inv σ → Inv (dispatch σ ev)) →
  ∀ evs σ, Inv σ → Inv (run evs σ).
Proof.
  intros Hstep evs. induction evs as [|ev evs IH]; intros σ Hσ; [done|].
  simpl. apply IH, Hstep, Hσ.
Qed.

(** ** Life cycles *)

Lemma created_of_snoc evs ev :
  created_of (evs ++ [ev])
  = created_of evs ++ match ev with WindowCreated bw => [bw] | _ => [] end.
Proof. unfold created_of. rewrite bind_app. simpl. by rewrite app_nil_r. Qed.

Lemma closed_of_snoc evs ev :
  closed_of (evs ++ [ev])
  = closed_of evs ++ match ev with WindowClosed bw => [bw] | _ => [] end.
Proof. unfold closed_of. rewrite bind_app. simpl. by rewrite app_nil_r. Qed.

Lemma elem_of_created_of evs bw : bw ∈ created_of evs ↔ WindowCreated bw ∈ evs.
Proof.
  clear appPath existsSync glob_match.
  unfold created_of. rewrite list_elem_of_bind. split.
  - intros ([p|bw'|bw'] & Hin & Hev); set_solver.
  - intros Hev. exists (WindowCreated bw). set_solver.
Qed.

Lemma elem_of_closed_of evs bw : bw ∈ closed_of evs ↔ WindowClosed bw ∈ evs.
Proof.
  clear appPath existsSync glob_match.
  unfold closed_of. rewrite list_elem_of_bind. split.
  - intros ([p|bw'|bw'] & Hin & Hev); set_solver.
  - intros Hev. exists (WindowClosed bw). set_solver.
Qed.

Lemma lifecycle_ok_snoc evs ev :
  lifecycle_ok (evs ++ [ev]) →
  lifecycle_ok evs ∧
  match ev with
  | WindowCreated bw => bw ∉ created_of evs
  | WindowClosed bw => bw ∉ closed_of evs
  | FsChange _ => True
  end.
Proof.
  unfold lifecycle_ok. rewrite created_of_snoc, closed_of_snoc.
  intros [Hc Hd]. destruct ev as [p|bw|bw]; rewrite ?app_nil_r in *.
  - done.
  - apply NoDup_app in Hc as (Hc & Hne & _). split; [done|].
    intros Hin. apply (Hne bw Hin). left.
  - apply NoDup_app in Hd as (Hd & Hne & _). split; [done|].
    intros Hin. apply (Hne bw Hin). left.
Qed.

Lemma open_after_nil bw : ¬ open_after [] bw.
Proof. intros (pre & post & Heq & _). by destruct pre. Qed.

Lemma open_after_snoc evs ev bw :
  open_after (evs ++ [ev]) bw ↔
  ev = WindowCreated bw ∨ (open_after evs bw ∧ ev ≠ WindowClosed bw).
Proof.
  clear appPath existsSync glob_match.
  split.
  - intros (pre & post & Heq & Hpost).
    destruct (decide (post = [])) as [->|Hne].
    + left. apply app_inj_tail in Heq as [_ ->]. done.
    + right. destruct (exists_last Hne) as (post' & ev' & ->).
      rewrite app_comm_cons, app_assoc in Heq.
      apply app_inj_tail in Heq as [-> ->].
      rewrite not_elem_of_app in Hpost. destruct Hpost as [Hpost Hev].
      split; [by exists pre, post'|]. set_solver.
  - intros [->|[(pre & post & -> & Hpost) Hev]].
    + exists evs, []. split; [done|]. apply not_elem_of_nil.
    + exists pre, (post ++ [ev]). split; [by rewrite <- app_assoc|].
      rewrite not_elem_of_app. set_solver.
Qed.

Lemma open_after_created evs bw : open_after evs bw → bw ∈ created_of evs.
Proof.
  clear appPath existsSync glob_match.
  intros (pre & post & -> & _). apply elem_of_created_of. set_solver.
Qed.

Lemma created_not_closed_open evs bw :
  bw ∈ created_of evs → bw ∉ closed_of evs → open_after evs bw.
Proof.
  clear appPath existsSync glob_match.
  rewrite elem_of_created_of, elem_of_closed_of. intros Hc Hd.
  apply list_elem_of_split in Hc as (pre & post & ->).
  exists pre, post. split; [done|]. set_solver.
Qed.

(** ** The window registry *)

Lemma registry_inv_init σ :
  heap σ = [[]] → created_listeners σ = [0] → closed_listeners σ = ∅ →
  registry_inv [] σ.
Proof.
  intros Hh Hc Hd. split_and!; [done| |].
  - exists []. split_and!; [done|constructor|].
    intros bw. split; [by intros ?%elem_of_nil|by intros ?%open_after_nil].
  - intros bw. unfold closed_listeners_of. rewrite Hd, lookup_empty. done.
Qed.

Lemma registry_inv_step evs ev σ :
  lifecycle_ok (evs ++ [ev]) →
  registry_inv evs σ →
  registry_inv (evs ++ [ev]) (dispatch σ ev) ∧
  match ev with
  | WindowClosed bw =>
      array_at (dispatch σ ev) 0 = filter (λ y, y ≠ bw) (array_at σ 0)
  | WindowCreated bw => array_at (dispatch σ ev) 0 = array_at σ 0 ++ [bw]
  | FsChange _ => array_at (dispatch σ ev) 0 = array_at σ 0
  end.
Proof.
  clear existsSync.
  intros Hok (Hc & (L & Hh & Hnd & HL) & Hd).
  apply lifecycle_ok_snoc in Hok as [Hok Hev].
  destruct ev as [p|a|a].
  - (* a change of the file system *)
    rewrite dispatch_FsChange. unfold registry_inv, array_at, closed_listeners_of.
    simpl. split; [|done]. split_and!; [done| |].
    + exists L. split_and!; [done..|]. intros bw.
      rewrite open_after_snoc, HL. naive_solver.
    + intros bw. rewrite created_of_snoc, app_nil_r. apply Hd.
  - (* a window is created *)
    assert (HaL : a ∉ L) by (intros Hin; by apply Hev, open_after_created, HL).
    simpl. rewrite Hc. simpl. unfold on_created, registry_inv, array_at,
      closed_listeners_of, set_heap, set_closed_listeners. simpl.
    rewrite Hh. simpl. split; [|done]. split_and!; [done| |].
    + exists (L ++ [a]). split_and!; [done| |].
      * apply NoDup_app. split_and!; [done| |apply NoDup_singleton].
        intros x Hx ->%list_elem_of_singleton. done.
      * intros bw. rewrite open_after_snoc, elem_of_app, list_elem_of_singleton, HL.
        naive_solver.
    + intros bw. specialize (Hd bw). unfold closed_listeners_of in Hd.
      rewrite created_of_snoc.
      destruct (decide (a = bw)) as [->|Hne].
      * rewrite lookup_insert_eq. simpl.
        rewrite decide_False in Hd by done. rewrite Hd.
        rewrite decide_True by (apply elem_of_app; right; left). done.
      * rewrite lookup_insert_ne by done. rewrite Hd.
        destruct (decide (bw ∈ created_of evs)) as [Hin|Hnin].
        -- rewrite decide_True by (apply elem_of_app; by left). done.
        -- rewrite decide_False; [done|].
           rewrite elem_of_app, list_elem_of_singleton. naive_solver.
  - (* a window is closed *)
    simpl. rewrite (Hd a).
    destruct (decide (a ∈ created_of evs)) as [Hin|Hnin]; simpl.
    + assert (HaL : a ∈ L) by (by apply HL, created_not_closed_open).
      unfold on_closed, registry_inv, array_at, closed_listeners_of, set_heap.
      simpl. rewrite Hh. simpl.
      rewrite (splice_indexOf_tracked L a Hnd HaL).
      split; [|done]. split_and!; [done| |].
      * exists (filter (λ y, y ≠ a) L). split_and!; [done|by apply NoDup_filter|].
        intros bw. rewrite list_elem_of_filter, open_after_snoc, HL. naive_solver.
      * intros bw. rewrite created_of_snoc, app_nil_r. apply Hd.
    + assert (HaL : a ∉ L) by (intros Hx; by apply Hnin, open_after_created, HL).
      unfold array_at. rewrite Hh. simpl.
      rewrite filter_all by (intros x Hx ->; done).
      split; [|done]. split_and!; [done| |].
      * exists L. split_and!; [done..|]. intros bw.
        rewrite open_after_snoc, HL. split; [|naive_solver].
        intros Hbw. right. split; [done|]. intros [= ->]. by apply HaL, HL.
      * intros bw. rewrite created_of_snoc, app_nil_r. apply Hd.
Qed.

Lemma registry_inv_run evs : ∀ σ,
  lifecycle_ok evs → registry_inv [] σ → registry_inv evs (run evs σ).
Proof.
  induction evs as [|ev evs IH] using rev_ind; intros σ Hok Hσ; [done|].
  rewrite run_snoc. apply registry_inv_step; [done|].
  apply IH; [|done]. by apply lifecycle_ok_snoc in Hok as [? _].
Qed.

(** ** What listeners append to the log *)

Lemma createHardResetHandler_truthy exe m e a :
  exe ≠ "" →
  createHardResetHandler (Some exe) m e a
  = [Spawn exe (or_empty e ++ [appPath] ++ or_empty a) true "inherit";
     ChildUnref;
     if decide (m = Some "exit") then AppExit else AppQuit].
Proof.
  intros Hne. unfold createHardResetHandler.
  rewrite truthy_Some by done. simpl. rewrite <- app_assoc.
  by destruct (decide (m = Some "exit")).
Qed.

Lemma createHardResetHandler_falsy exe m e a :
  truthy exe = false → createHardResetHandler exe m e a = [].
Proof.
  intros Hf. unfold createHardResetHandler.
  destruct exe; [|done]. by rewrite Hf.
Qed.

Lemma createHardResetHandler_cases exe m e a :
  createHardResetHandler exe m e a = [] ∨
  ∃ x t, exe = Some x ∧ is_termination t = true ∧
    createHardResetHandler exe m e a
    = [Spawn x (or_empty e ++ [appPath] ++ or_empty a) true "inherit"; ChildUnref; t].
Proof.
  destruct (truthy exe) eqn:Ht.
  - right. destruct exe as [x|]; [|done].
    assert (x ≠ "") by (intros ->; done).
    rewrite createHardResetHandler_truthy by done.
    eexists _, _. split_and!; [done| |done]. by destruct (decide _).
  - left. by apply createHardResetHandler_falsy.
Qed.

(** A property of all effects of all listeners holds of what one change
    appends to the log. *)
Lemma change_effects_Forall (P : effect → Prop) h p (ws : list FSWatcher) :
  (∀ w f, w ∈ ws → reports w p = true → f ∈ w_listeners w →
          Forall P (listener_effects h f.2)) →
  Forall P (ws ≫= watcher_effects h p).
Proof.
  intros HP. apply Forall_forall. intros e He.
  apply list_elem_of_bind in He as (w & He & Hw).
  unfold watcher_effects in He.
  destruct (reports w p) eqn:Hr; [|by apply elem_of_nil in He].
  apply list_elem_of_bind in He as (f & He & Hf).
  specialize (HP w f Hw Hr Hf). rewrite Forall_forall in HP. by apply HP.
Qed.

Lemma elem_of_after_change p (ws : list FSWatcher) w' :
  w' ∈ after_change p <$> ws →
  ∃ w, w ∈ ws ∧ w_closed w' = w_closed w ∧ w_listeners w' ⊆ w_listeners w ∧
       (reports w p = true → ∀ f, f ∈ w_listeners w' → f.1 = false).
Proof.
  intros (w & -> & Hw)%list_elem_of_fmap. exists w. split; [done|].
  unfold after_change. destruct (reports w p); simpl.
  - split_and!; [done| |].
    + intros f Hf. by apply list_elem_of_filter in Hf as [_ ?].
    + intros _ f Hf. by apply list_elem_of_filter in Hf as [? _].
  - split_and!; done.
Qed.

(** *** Spawns are bounded by the one-shot hard listeners *)

Lemma spawns_app es1 es2 : spawns (es1 ++ es2) = spawns es1 + spawns es2.
Proof. unfold spawns. by rewrite filter_app, length_app. Qed.

Lemma spawns_softResetHandler L : spawns (softResetHandler L) = 0.
Proof. unfold spawns, softResetHandler. by induction L. Qed.

Lemma spawns_createHardResetHandler exe m e a :
  spawns (createHardResetHandler exe m e a) ≤ 1.
Proof.
  destruct (createHardResetHandler_cases exe m e a) as [->|(x & t & _ & Ht & ->)].
  - unfold spawns. simpl. lia.
  - unfold spawns. rewrite filter_cons_True by done.
    rewrite filter_cons_False by done.
    rewrite filter_cons_False by (destruct t; done). simpl. lia.
Qed.

Lemma spawns_listeners h (fs : list (bool * listener)) :
  spawns (fs ≫= (λ f, listener_effects h f.2))
  ≤ length (filter (λ f, is_hard f.2 = true) fs).
Proof.
  induction fs as [|[o f] fs IH]; [done|].
  rewrite bind_cons, spawns_app. destruct f as [l|exe m e a].
  - rewrite filter_cons_False by done.
    change (listener_effects h (o, SoftReset l).2)
      with (softResetHandler (default [] (h !! l))).
    rewrite spawns_softResetHandler. lia.
  - rewrite filter_cons_True by done.
    change (listener_effects h (o, HardReset exe m e a).2)
      with (createHardResetHandler exe m e a).
    pose proof (spawns_createHardResetHandler exe m e a). simpl length. lia.
Qed.

Lemma pending_cons w ws :
  pending (w :: ws)
  = length (filter (λ f, is_hard f.2 = true) (w_listeners w)) + pending ws.
Proof. unfold pending. by rewrite bind_cons, length_app. Qed.

Lemma spawns_change h p (ws : list FSWatcher) :
  (∀ w f, w ∈ ws → f ∈ w_listeners w → is_hard f.2 = true → f.1 = true) →
  spawns (ws ≫= watcher_effects h p) + pending (after_change p <$> ws) ≤ pending ws.
Proof.
  induction ws as [|w ws IH]; intros Honce; [done|].
  rewrite bind_cons, spawns_app, fmap_cons, !pending_cons.
  assert (IH' : spawns (ws ≫= watcher_effects h p) + pending (after_change p <$> ws)
                ≤ pending ws).
  { apply IH. intros w' f Hw'. apply Honce. by right. }
  unfold watcher_effects at 1, after_change at 1.
  destruct (reports w p).
  - pose proof (spawns_listeners h (w_listeners w)) as Hs.
    assert (Hnil : filter (λ f, is_hard f.2 = true) (w_listeners (drop_once w)) = []).
    { simpl. rewrite list_filter_filter. apply elem_of_nil_inv.
      intros f [[Hh Ho] Hf]%list_elem_of_filter.
      specialize (Honce w f (list_elem_of_here _ _) Hf Hh). congruence. }
    rewrite Hnil. simpl. lia.
  - unfold spawns at 1. simpl. lia.
Qed.

(** ** Invariants of the event loop *)

Lemma reports_open w p : reports w p = true → w_closed w = false.
Proof.
  unfold reports. destruct (w_closed w); [done|done].
Qed.

Lemma once_inv_dispatch n σ ev : once_inv n σ → once_inv n (dispatch σ ev).
Proof.
  intros [Honce Hn]. destruct (dispatch_cases  σ ev) as [[p ->]|[Hws Hlg]].
  - rewrite dispatch_FsChange. unfold once_inv. simpl. split.
    + intros w' f (w & Hw & _ & Hsub & _)%elem_of_after_change Hf.
      apply (Honce w f Hw). by apply Hsub.
    + rewrite spawns_app.
      pose proof (spawns_change  (heap σ) p (watchers σ) Honce).
      lia.
  - unfold once_inv. by rewrite Hws, Hlg.
Qed.

Lemma hard_only_inv_dispatch σ ev : hard_only_inv σ → hard_only_inv (dispatch σ ev).
Proof.
  intros [Hhard Hlog]. destruct (dispatch_cases  σ ev) as [[p ->]|[Hws Hlg]].
  - rewrite dispatch_FsChange. unfold hard_only_inv. simpl. split.
    + intros w' f (w & Hw & Hcl & Hsub & _)%elem_of_after_change Hopen Hf.
      apply (Hhard w f Hw); [congruence|by apply Hsub].
    + apply Forall_app. split; [done|].
      apply change_effects_Forall. intros w f Hw Hr Hf.
      specialize (Hhard w f Hw (reports_open w p Hr) Hf).
      destruct f as [o [l|exe m e a]]; [done|]. simpl.
      destruct (createHardResetHandler_cases exe m e a)
        as [->|(x & t & _ & Ht & ->)]; [done|].
      repeat constructor. by destruct t.
  - unfold hard_only_inv. by rewrite Hws, Hlg.
Qed.


Lemma relaunch_inv_dispatch options σ ev :
  relaunch_inv options σ → relaunch_inv options (dispatch σ ev).
Proof.
  intros [Hl Hlog]. destruct (dispatch_cases  σ ev) as [[p ->]|[Hws Hlg]].
  - rewrite dispatch_FsChange. unfold relaunch_inv. simpl. split.
    + intros w' f (w & Hw & _ & Hsub & _)%elem_of_after_change Hf.
      apply (Hl w f Hw). by apply Hsub.
    + apply Forall_app. split; [done|].
      apply change_effects_Forall. intros w f Hw Hr Hf.
      specialize (Hl w f Hw Hf).
      destruct f as [o [l|exe m e a]]; simpl in *.
      * unfold softResetHandler. apply Forall_fmap, Forall_forall.
        intros bw _. unfold compose, relaunch_ok. done.
      * specialize (Hl eq_refl). injection Hl as -> -> -> ->.
        destruct (createHardResetHandler_cases (electron options)
                    (hardResetMethod options) (electronArgv options)
                    (appArgv options))
          as [->|(x & t & Hx & Ht & ->)]; [done|].
        rewrite !Forall_cons. unfold relaunch_ok. split_and!.
        -- intros x' args' d' s' [= <- <- <- <-]. done.
        -- done.
        -- intros x' args' d' s' ->. done.
        -- apply Forall_nil_2.
  - unfold relaunch_inv. by rewrite Hws, Hlg.
Qed.

Lemma ordered_app es1 es2 : ordered es1 → ordered es2 → ordered (es1 ++ es2).
Proof.
  induction 1 as [|bw es _ IH|exe args t es Ht _ IH]; intros H2; simpl.
  - done.
  - constructor. by apply IH.
  - constructor; [done|]. by apply IH.
Qed.

Lemma ordered_softResetHandler L : ordered (softResetHandler L).
Proof. induction L; simpl; by constructor. Qed.

Lemma ordered_createHardResetHandler exe m e a :
  ordered (createHardResetHandler exe m e a).
Proof.
  destruct (createHardResetHandler_cases exe m e a)
    as [->|(x & t & _ & Ht & ->)]; repeat constructor. done.
Qed.

Lemma ordered_listeners h (fs : list (bool * listener)) :
  ordered (fs ≫= (λ f, listener_effects h f.2)).
Proof.
  induction fs as [|[o f] fs IH]; [constructor|].
  rewrite bind_cons. apply ordered_app; [|done].
  destruct f; [apply ordered_softResetHandler|apply ordered_createHardResetHandler].
Qed.

Lemma ordered_change h p (ws : list FSWatcher) :
  ordered (ws ≫= watcher_effects h p).
Proof.
  induction ws as [|w ws IH]; [constructor|].
  rewrite bind_cons. apply ordered_app; [|done].
  unfold watcher_effects. destruct (reports w p); [|constructor].
  apply ordered_listeners.
Qed.

Lemma ordered_dispatch σ ev : ordered (log σ) → ordered (log (dispatch σ ev)).
Proof.
  intros Hlog. destruct (dispatch_cases  σ ev) as [[p ->]|[Hws Hlg]].
  - rewrite dispatch_FsChange. simpl. apply ordered_app; [done|].
    apply ordered_change.
  - by rewrite Hlg.
Qed.

(** In an ordered log a termination call is directly preceded by the
    release of the child, and that by its spawn. *)
Lemma ordered_termination es :
  ordered es → ∀ before t after, es = before ++ t :: after →
  is_termination t = true →
  ∃ before' exe args,
    before = before' ++ [Spawn exe args true "inherit"; ChildUnref].
Proof.
  induction 1 as [|bw es _ IH|exe args t' es Ht' _ IH];
    intros before t after Heq Ht.
  - by destruct before.
  - destruct before as [|b before]; [by simplify_eq/=|]. simplify_eq/=.
    destruct (IH _ _ _ eq_refl Ht) as (b' & x & a & ->).
    by exists (ReloadIgnoringCache bw :: b'), x, a.
  - destruct before as [|b0 before]; [by simplify_eq/=|].
    destruct before as [|b1 before]; [by simplify_eq/=|].
    destruct before as [|b2 before]; simplify_eq/=.
    + by exists [], exe, args.
    + destruct (IH _ _ _ eq_refl Ht) as (b' & x & a & ->).
      eexists (Spawn exe args true "inherit" :: ChildUnref :: _ :: b'), x, a.
      done.
Qed.

Lemma watchers_inv_dispatch options σ ev :
  watchers_inv options (watchers σ) →
  watchers_inv options (watchers (dispatch σ ev)).
Proof.
  intros Hinv. destruct (dispatch_cases  σ ev)
    as [[p ->]|[Hws _]]; [|by rewrite Hws].
  rewrite dispatch_FsChange. simpl.
  destruct Hinv as (sw & Hsw & Hws).
  assert (Hsw' : soft_shape 0 (after_change p sw)).
  { unfold after_change. destruct (reports sw p); [|done].
    destruct Hsw as [[Hl Hc]|[Hl Hc]]; [left|right]; simpl; by rewrite Hl. }
  exists (after_change p sw). split; [done|].
  destruct Hws as [->|(hw & -> & Hhw & Ht)]; [by left|right].
  exists (after_change p hw). split_and!; [done| |done].
  unfold after_change. destruct (reports hw p); [|done].
  destruct Hhw as [Hl|Hl]; right; simpl; by rewrite Hl.
Qed.


Lemma ignored_of_soft_options_default mainFile options :
  watchOptions options !! "ignored" = None →
  ignored_of (soft_options mainFile options) = [MIgnoredPaths; MString mainFile].
Proof.
  intros Hn. unfold ignored_of, soft_options, Object_assign.
  rewrite lookup_union, Hn, lookup_singleton_eq. done.
Qed.


(** *** What one change appends *)

Lemma appended_dispatch_FsChange σ p :
  appended σ (dispatch σ (FsChange p)) = watchers σ ≫= watcher_effects (heap σ) p.
Proof.
  rewrite dispatch_FsChange. unfold appended. simpl. by rewrite drop_app_length.
Qed.

Lemma filter_reload_softResetHandler L :
  filter (λ e, is_reload e = true) (softResetHandler L) = softResetHandler L.
Proof.
  apply filter_all. intros e (bw & -> & _)%list_elem_of_fmap. done.
Qed.

Lemma filter_reload_createHardResetHandler exe m e a :
  filter (λ e, is_reload e = true) (createHardResetHandler exe m e a) = [].
Proof.
  destruct (createHardResetHandler_cases exe m e a)
    as [->|(x & t & _ & Ht & ->)]; [done|].
  rewrite filter_cons_False by done. rewrite filter_cons_False by done.
  rewrite filter_cons_False by (by destruct t). done.
Qed.

Lemma reloads_of_softResetHandler bw L :
  NoDup L →
  reloads_of bw (softResetHandler L) = if decide (bw ∈ L) then 1 else 0.
Proof.
  clear appPath existsSync glob_match.
  unfold reloads_of, softResetHandler.
  induction 1 as [|x L Hx Hnd IH]; [done|].
  rewrite fmap_cons. destruct (decide (x = bw)) as [->|Hne].
  - rewrite filter_cons_True by done. simpl. rewrite IH.
    rewrite decide_False by done. rewrite decide_True by left. done.
  - rewrite filter_cons_False by congruence. rewrite IH.
    destruct (decide (bw ∈ L)).
    + rewrite decide_True by (by right). done.
    + rewrite decide_False; [done|]. rewrite elem_of_cons. naive_solver.
Qed.

(** ** The world after one call in a fresh process *)

Lemma soft_stage_fresh glob mainFile options :
  fresh_facts options (soft_stage glob mainFile options init).
Proof.
  unfold fresh_facts. split_and!.
  - by apply registry_inv_init.
  - done.
  - split; [listener_cases|]. unfold pending. simpl. lia.
  - split; [listener_cases|]. constructor.
  - eexists. split; last first; [left; reflexivity|]. by left.
Qed.

Lemma hard_stage_fresh glob mainFile options :
  truthy (electron options) = true →
  fresh_facts options (hard_stage glob mainFile options init).
Proof.
  intros Ht. unfold fresh_facts. split_and!.
  - by apply registry_inv_init.
  - done.
  - split; [listener_cases|]. unfold pending. simpl. lia.
  - split; [listener_cases|]. constructor.
  - eexists. split; last first.
    + right. eexists. split_and!; [reflexivity|by left|done].
    + by left.
Qed.

Lemma forced_stage_fresh glob mainFile options :
  truthy (electron options) = true →
  fresh_facts options (forced_stage glob mainFile options init).
Proof.
  intros Ht. unfold fresh_facts. split_and!.
  - by apply registry_inv_init.
  - done.
  - split; [listener_cases|]. unfold pending. simpl. lia.
  - split; [listener_cases|]. constructor.
  - eexists. split; last first.
    + right. eexists. split_and!; [reflexivity|by left|done].
    + by right.
Qed.

Lemma setup_from_init glob mainFile options :
  fresh_facts options (electronReload glob mainFile options init).1.
Proof.
  destruct (truthy (electron options)) eqn:Ht.
  - destruct (existsSync (default "" (electron options))) eqn:He.
    + destruct (decide (forceHardReset options = Some true)) as [Hf|Hf].
      * rewrite electronReload_forced by done. by apply forced_stage_fresh.
      * rewrite electronReload_hard by done. by apply hard_stage_fresh.
    + rewrite electronReload_missing_executable by done. apply soft_stage_fresh.
  - rewrite electronReload_no_executable by done. apply soft_stage_fresh.
Qed.

(** ** Arrays of different calls *)

(** A listener of ["browser-window-created"] or of ["closed"] touches the
    array it captured and no other. *)
Lemma on_created_other bw σ l l' :
  l ≠ l' → heap (on_created bw σ l) !! l' = heap σ !! l'.
Proof. intros Hne. simpl. by rewrite list_lookup_alter_ne. Qed.

Lemma on_closed_other bw σ l l' :
  l ≠ l' → heap (on_closed bw σ l) !! l' = heap σ !! l'.
Proof. intros Hne. simpl. by rewrite list_lookup_alter_ne. Qed.

Lemma foldl_on_created_length bw ls : ∀ σ,
  length (heap (foldl (on_created bw) σ ls)) = length (heap σ).
Proof.
  induction ls as [|l ls IH]; intros σ; simpl; [done|].
  rewrite IH. simpl. by rewrite length_alter.
Qed.

Lemma foldl_on_closed_length bw ls : ∀ σ,
  length (heap (foldl (on_closed bw) σ ls)) = length (heap σ).
Proof.
  induction ls as [|l ls IH]; intros σ; simpl; [done|].
  rewrite IH. simpl. by rewrite length_alter.
Qed.

(** Events allocate nothing. *)
Lemma run_heap_length evs : ∀ σ, length (heap (run evs σ)) = length (heap σ).
Proof.
  induction evs as [|ev evs IH]; intros σ; [done|].
  simpl. rewrite IH. destruct ev as [p|bw|bw].
  - by rewrite dispatch_FsChange.
  - apply foldl_on_created_length.
  - apply foldl_on_closed_length.
Qed.

(** The array at [l] after ["browser-window-created"]: one push for each
    listener that captured [l]. *)
Lemma foldl_on_created_heap bw l ls : ∀ σ,
  heap (foldl (on_created bw) σ ls) !! l
  = (λ a, a ++ replicate (length (filter (λ x, x = l) ls)) bw) <$> heap σ !! l.
Proof.
  induction ls as [|l0 ls IH]; intros σ.
  - simpl. destruct (heap σ !! l); simpl; by rewrite ?app_nil_r.
  - simpl foldl. rewrite IH. simpl heap. rewrite list_lookup_alter.
    case_decide as Hl; [subst l0|].
    + rewrite filter_cons_True by done.
      destruct (heap σ !! l); simpl; [|done]. by rewrite <- app_assoc.
    + by rewrite filter_cons_False.
Qed.

Lemma foldl_on_created_closed_listeners bw bw' ls : ∀ σ,
  closed_listeners_of (foldl (on_created bw) σ ls) bw'
  = closed_listeners_of σ bw' ++ (if decide (bw' = bw) then ls else []).
Proof.
  induction ls as [|l0 ls IH]; intros σ.
  - simpl. destruct (decide (bw' = bw)); by rewrite app_nil_r.
  - simpl foldl. rewrite IH. unfold closed_listeners_of at 1. simpl.
    destruct (decide (bw' = bw)) as [->|Hne].
    + rewrite lookup_insert_eq. simpl. by rewrite <- app_assoc.
    + rewrite lookup_insert_ne by done. by rewrite !app_nil_r.
Qed.

(** The array at [l] after ["closed"]: one removal for each listener that
    captured [l]. *)
Lemma foldl_on_closed_heap bw l ls : ∀ σ,
  heap (foldl (on_closed bw) σ ls) !! l
  = Nat.iter (length (filter (λ x, x = l) ls))
      (fmap (λ a, splice a (indexOf a bw) 1)) (heap σ !! l).
Proof.
  induction ls as [|l0 ls IH]; intros σ; [done|].
  simpl foldl. rewrite IH. simpl heap. rewrite list_lookup_alter.
  case_decide as Hl; [subst l0|].
  - rewrite filter_cons_True by done. simpl length. rewrite Nat.iter_succ_r.
    assert (E : ∀ o : option (list BrowserWindow),
              (λ a, splice a (indexOf (default [] o) bw) 1) <$> o
              = (λ a, splice a (indexOf a bw) 1) <$> o) by (by intros [?|]).
    apply (f_equal (Nat.iter _ _)), E.
  - by rewrite filter_cons_False.
Qed.

Lemma same_view_dispatch l σ τ ev :
  same_view l σ τ → same_view l (dispatch σ ev) (dispatch τ ev).
Proof.
  intros (Hh & Hc & Hd). destruct ev as [p|bw|bw].
  - rewrite !dispatch_FsChange. done.
  - simpl. split_and!.
    + rewrite !foldl_on_created_heap. by rewrite Hh, Hc.
    + destruct (foldl_on_created_frame bw (created_listeners σ) σ) as (_ & _ & ->).
      destruct (foldl_on_created_frame bw (created_listeners τ) τ) as (_ & _ & ->).
      done.
    + intros bw'. rewrite !foldl_on_created_closed_listeners, !filter_app.
      rewrite Hd. destruct (decide (bw' = bw)); by rewrite ?Hc.
  - simpl. split_and!.
    + rewrite !foldl_on_closed_heap. by rewrite Hh, Hd.
    + destruct (foldl_on_closed_frame bw (closed_listeners_of σ bw) σ)
        as (_ & _ & -> & _).
      destruct (foldl_on_closed_frame bw (closed_listeners_of τ bw) τ)
        as (_ & _ & -> & _).
      done.
    + intros bw'. unfold closed_listeners_of at 1 3.
      destruct (foldl_on_closed_frame bw (closed_listeners_of σ bw) σ)
        as (_ & _ & _ & ->).
      destruct (foldl_on_closed_frame bw (closed_listeners_of τ bw) τ)
        as (_ & _ & _ & ->).
      apply Hd.
Qed.

(** Worlds with the same view of [l] keep the same array at [l], whatever
    else they contain and whatever happens. *)
Lemma same_view_run l evs : ∀ σ τ,
  same_view l σ τ → heap (run evs σ) !! l = heap (run evs τ) !! l.
Proof.
  induction evs as [|ev evs IH]; intros σ τ Hv; [by destruct Hv|].
  simpl. by apply IH, same_view_dispatch.
Qed.

(** A call allocates its array at the first free address and leaves the
    arrays that exist alone. *)
Lemma electronReload_heap glob mainFile options σ :
  heap (electronReload glob mainFile options σ).1 = heap σ ++ [[]] ∧
  created_listeners (electronReload glob mainFile options σ).1
  = created_listeners σ ++ [length (heap σ)] ∧
  closed_listeners (electronReload glob mainFile options σ).1
  = closed_listeners σ.
Proof.
  pose proof (electronReload_cases glob mainFile options σ) as Hc.
  repeat (apply elem_of_cons in Hc as [->|Hc]); [..|by apply elem_of_nil in Hc];
    done.
Qed.

(** A call changes nothing in the view of an array that exists already. *)
Lemma electronReload_same_view glob mainFile options σ l :
  l < length (heap σ) →
  same_view l (electronReload glob mainFile options σ).1 σ.
Proof.
  intros Hl.
  destruct (electronReload_heap glob mainFile options σ) as (Hh & Hc & Hd).
  split_and!.
  - rewrite Hh. by apply lookup_app_l.
  - rewrite Hc, filter_app, filter_cons_False by lia. by rewrite app_nil_r.
  - intros bw. unfold closed_listeners_of. by rewrite Hd.
Qed.

(** ** The regular expression [ignoredPaths] *)

Lemma prefix_occurs (a b : string) :
  String.prefix a b = true ↔ ∃ after, b = a +:+ after.
Proof.
  clear appPath existsSync glob_match.
  revert b. induction a as [|c a IH]; intros b.
  - destruct b; simpl; (split; [intros _; by eexists|done]).
  - destruct b as [|d b]; simpl.
    + split; [done|]. by intros [? ?].
    + destruct (Ascii.ascii_dec c d) as [->|Hne].
      * rewrite IH. split; intros [after Ha]; exists after.
        -- by rewrite Ha.
        -- by injection Ha.
      * split; [done|]. intros [after Ha]. injection Ha as Hcd _. congruence.
Qed.

Lemma contains_occurs (needle hay : string) :
  contains needle hay = true ↔ occurs needle hay.
Proof.
  clear appPath existsSync glob_match.
  unfold occurs. induction hay as [|c hay IH].
  - simpl. destruct (String.eqb_spec needle "") as [->|Hne].
    + split; [intros _; by exists "", ""|done].
    + split; [done|]. intros (b & a & Heq).
      destruct b; [|done]. by destruct needle.
  - change (contains needle (String c hay))
      with (String.prefix needle (String c hay) || contains needle hay).
    rewrite orb_true_iff, IH, prefix_occurs. split.
    + intros [[a Ha]|(b & a & ->)].
      * by exists "", a.
      * by exists (String c b), a.
    + intros (b & a & Heq). destruct b as [|d b].
      * left. by exists a.
      * right. injection Heq as -> ->. by exists b, a.
Qed.

(** ** A fresh process with two watchers *)

Lemma dispatch_FsChange_two sw hw σ p :
  watchers σ = [sw; hw] →
  dispatch σ (FsChange p)
  = {| heap := heap σ;
       watchers := [after_change p sw; after_change p hw];
       created_listeners := created_listeners σ;
       closed_listeners := closed_listeners σ;
       log := log σ ++ watcher_effects (heap σ) p sw
                    ++ watcher_effects (heap σ) p hw |}.
Proof.
  intros Hws. rewrite dispatch_FsChange, Hws. simpl. by rewrite app_nil_r.
Qed.



Lemma after_change_closed_watcher0 glob mainFile options p :
  after_change p (closed_watcher0 glob mainFile options)
  = closed_watcher0 glob mainFile options.
Proof. done. Qed.

Lemma watcher_effects_closed_watcher0 glob mainFile options h p :
  watcher_effects h p (closed_watcher0 glob mainFile options) = [].
Proof. done. Qed.

Lemma reports_hard_watcher0 paths options fired p :
  reports (hard_watcher0 paths options fired) p
  = reports (hard_watcher0 paths options false) p.
Proof. done. Qed.

Lemma after_change_hard_watcher0 paths options fired p :
  after_change p (hard_watcher0 paths options fired)
  = hard_watcher0 paths options
      (fired || reports (hard_watcher0 paths options false) p).
Proof.
  unfold after_change. rewrite reports_hard_watcher0.
  destruct (reports _ p), fired; done.
Qed.

Lemma watcher_effects_hard_watcher0 paths options fired h p :
  watcher_effects h p (hard_watcher0 paths options fired)
  = if reports (hard_watcher0 paths options false) p && negb fired
    then createHardResetHandler (electron options) (hardResetMethod options)
           (electronArgv options) (appArgv options)
    else [].
Proof.
  unfold watcher_effects. rewrite reports_hard_watcher0.
  destruct (reports _ p), fired; try done.
  simpl. by rewrite app_nil_r.
Qed.

Lemma createHardResetHandler_calls options exe :
  electron options = Some exe → exe ≠ "" →
  createHardResetHandler (electron options) (hardResetMethod options)
    (electronArgv options) (appArgv options)
  = hard_reset_calls options exe.
Proof.
  intros -> Hne. rewrite createHardResetHandler_truthy by done.
  unfold hard_reset_calls.
  by destruct (electronArgv options), (appArgv options).
Qed.


Lemma ignored_of_hard_options_default options :
  watchOptions options !! "ignored" = None →
  ignored_of (hard_options options) = [MIgnoredPaths].
Proof.
  intros Hn. unfold ignored_of, hard_options, Object_assign.
  rewrite lookup_union, Hn, lookup_singleton_eq. done.
Qed.

(** A path matched by the regular expression of [ignored] is not reported. *)
Lemma reports_ignoredPaths w p :
  MIgnoredPaths ∈ ignored_of (w_options w) → ignoredPaths p = true →
  reports w p = false.
Proof.
  intros Hin Hm. unfold reports.
  assert (Hex : existsb (λ x, matcher_test x p) (ignored_of (w_options w)) = true).
  { apply existsb_exists. exists MIgnoredPaths. split; [|done].
    by apply list_elem_of_In. }
  rewrite Hex. by rewrite andb_false_r.
Qed.

(** By default the hard watcher reports exactly the changes matched by one
    of its paths and not by [ignoredPaths]. *)
Lemma reports_hard_watcher0_default paths options p :
  watchOptions options !! "ignored" = None →
  reports (hard_watcher0 paths options false) p
  = existsb (λ t, glob_match t p) paths && negb (ignoredPaths p).
Proof.
  intros Hn. unfold reports. simpl.
  rewrite ignored_of_hard_options_default by done. simpl.
  by rewrite orb_false_r.
Qed.




Lemma forced_inv_init glob mainFile options exe :
  forced_inv glob mainFile options exe (forced_stage glob mainFile options init).
Proof. by exists false. Qed.

Lemma forced_inv_dispatch glob mainFile options exe σ ev :
  electron options = Some exe → exe ≠ "" →
  forced_inv glob mainFile options exe σ →
  ∃ fired : bool,
    watchers (dispatch σ ev)
    = [closed_watcher0 glob mainFile options;
       hard_watcher0 [mainFile; glob] options fired] ∧
    log (dispatch σ ev) = (if fired then hard_reset_calls options exe else []) ∧
    (log σ ≠ [] → fired = true) ∧
    (∀ p, ev = FsChange p →
          reports (hard_watcher0 [mainFile; glob] options false) p = true →
          fired = true).
Proof.
  intros He Hne (fired & Hws & Hlog).
  assert (Hframe : (∀ p, ev ≠ FsChange p) →
    ∃ fired : bool,
      watchers (dispatch σ ev)
      = [closed_watcher0 glob mainFile options;
         hard_watcher0 [mainFile; glob] options fired] ∧
      log (dispatch σ ev) = (if fired then hard_reset_calls options exe else []) ∧
      (log σ ≠ [] → fired = true) ∧
      (∀ p, ev = FsChange p →
            reports (hard_watcher0 [mainFile; glob] options false) p = true →
            fired = true)).
  { intros Hev. destruct (dispatch_window_frame σ ev Hev) as [Hws' Hlg].
    exists fired. rewrite Hws', Hlg. split_and!; [done..| |].
    - rewrite Hlog. by destruct fired.
    - intros p ->. by destruct (Hev p). }
  destruct ev as [p|bw|bw]; [|by apply Hframe..].
  clear Hframe.
  rewrite (dispatch_FsChange_two _ _ σ p Hws). simpl.
  rewrite after_change_hard_watcher0, watcher_effects_hard_watcher0.
  rewrite (createHardResetHandler_calls options exe) by done.
  eexists. split_and!; [reflexivity| | |].
  - rewrite Hlog.
    destruct (reports (hard_watcher0 [mainFile; glob] options false) p), fired;
      simpl; by rewrite ?app_nil_r.
  - rewrite Hlog. by destruct fired.
  - intros p' [= <-] ->. by destruct fired.
Qed.

Lemma forced_inv_step glob mainFile options exe σ ev :
  electron options = Some exe → exe ≠ "" →
  forced_inv glob mainFile options exe σ →
  forced_inv glob mainFile options exe (dispatch σ ev).
Proof.
  intros He Hne Hinv.
  destruct (forced_inv_dispatch glob mainFile options exe σ ev He Hne Hinv)
    as (fired & Hws & Hlog & _).
  by exists fired.
Qed.

Lemma forced_inv_run glob mainFile options exe evs σ :
  electron options = Some exe → exe ≠ "" →
  forced_inv glob mainFile options exe σ →
  forced_inv glob mainFile options exe (run evs σ).
Proof.
  intros He Hne. apply (run_invariant (forced_inv glob mainFile options exe)).
  intros. by apply forced_inv_step.
Qed.

(** Once a reported change is among the events, the log holds the hard
    reset, and keeps holding exactly it. *)
Lemma forced_run_fires glob mainFile options exe p evs : ∀ σ,
  electron options = Some exe → exe ≠ "" →
  forced_inv glob mainFile options exe σ →
  FsChange p ∈ evs →
  reports (hard_watcher0 [mainFile; glob] options false) p = true →
  log (run evs σ) = hard_reset_calls options exe.
Proof.
  induction evs as [|ev evs IH]; intros σ He Hne Hinv Hin Hrep;
    [by apply elem_of_nil in Hin|].
  simpl. apply elem_of_cons in Hin as [<-|Hin].
  - destruct (forced_inv_dispatch glob mainFile options exe σ (FsChange p)
                He Hne Hinv) as (fired & Hws & Hlog & _ & Hfire).
    rewrite (Hfire p eq_refl Hrep) in Hws, Hlog.
    assert (Hkeep : ∀ evs' τ,
      forced_inv glob mainFile options exe τ → log τ ≠ [] →
      log (run evs' τ) = hard_reset_calls options exe).
    { clear -He Hne. induction evs' as [|ev' evs' IH']; intros τ Hτ Hnn.
      - destruct Hτ as ([] & _ & Hl); [done|]. by rewrite Hl in Hnn.
      - simpl.
        destruct (forced_inv_dispatch glob mainFile options exe τ ev' He Hne Hτ)
          as (f & Hw & Hl & Hf & _).
        apply IH'; [by exists f|]. rewrite Hl, (Hf Hnn). done. }
    apply Hkeep; [by exists true|]. by rewrite Hlog.
  - apply IH; [done..|by apply forced_inv_step|done|done].
Qed.

(** ** Changes no watcher reports *)

Lemma unreported_change h p (ws : list FSWatcher) :
  (∀ w, w ∈ ws → reports w p = false) →
  after_change p <$> ws = ws ∧ ws ≫= watcher_effects h p = [].
Proof.
  induction ws as [|w ws IH]; intros Hno; [done|].
  destruct IH as [IH1 IH2]; [intros w' Hw'; apply Hno; by right|].
  rewrite fmap_cons, bind_cons, IH1, IH2.
  unfold after_change, watcher_effects. by rewrite Hno by left.
Qed.

Lemma dispatch_FsChange_unreported σ p :
  (∀ w, w ∈ watchers σ → reports w p = false) →
  dispatch σ (FsChange p) = σ.
Proof.
  intros Hno. rewrite dispatch_FsChange.
  destruct (unreported_change (heap σ) p (watchers σ) Hno) as [-> ->].
  rewrite app_nil_r. by destruct σ.
Qed.

Lemma default_ignored_inv_dispatch σ ev :
  default_ignored_inv σ → default_ignored_inv (dispatch σ ev).
Proof.
  intros Hinv. destruct (dispatch_cases σ ev) as [[p ->]|[Hws _]].
  - rewrite dispatch_FsChange. intros w' (w & -> & Hw)%list_elem_of_fmap.
    unfold after_change. destruct (reports w p); exact (Hinv w Hw).
  - unfold default_ignored_inv. by rewrite Hws.
Qed.

Lemma default_ignored_inv_setup glob mainFile options :
  watchOptions options !! "ignored" = None →
  default_ignored_inv (electronReload glob mainFile options init).1.
Proof.
  intros Hn.
  pose proof (ignored_of_soft_options_default mainFile options Hn) as Hs.
  pose proof (ignored_of_hard_options_default options Hn) as Hh.
  pose proof (electronReload_cases glob mainFile options init) as Hc.
  repeat (apply elem_of_cons in Hc as [->|Hc]); [..|by apply elem_of_nil in Hc];
    intros w Hw; simpl in Hw;
    repeat (apply elem_of_cons in Hw as [->|Hw]);
    try (by apply elem_of_nil in Hw); simpl; rewrite ?Hs, ?Hh; by left.
Qed.

(** ** The soft watcher stays as it was set up *)

Lemma dispatch_first_watcher σ ev sw :
  watchers σ !! 0 = Some sw → drop_once sw = sw →
  watchers (dispatch σ ev) !! 0 = Some sw.
Proof.
  intros Hsw Hkeep. destruct (dispatch_cases σ ev) as [[p ->]|[-> _]]; [|done].
  rewrite dispatch_FsChange. simpl. rewrite list_lookup_fmap, Hsw. simpl.
  unfold after_change. destruct (reports sw p); by rewrite ?Hkeep.
Qed.

(** ** Spawns of a process with several coordinators *)

Lemma pending_app ws1 ws2 : pending (ws1 ++ ws2) = pending ws1 + pending ws2.
Proof.
  clear appPath existsSync glob_match.
  unfold pending. by rewrite bind_app, length_app.
Qed.

Lemma once_inv_electronReload n glob mainFile options σ :
  once_inv n σ → once_inv (S n) (electronReload glob mainFile options σ).1.
Proof.
  intros [Honce Hn].
  assert (Hold : ∀ w f, w ∈ watchers σ → f ∈ w_listeners w →
                        is_hard f.2 = true → f.1 = true) by done.
  pose proof (electronReload_cases glob mainFile options σ) as Hc.
  repeat (apply elem_of_cons in Hc as [->|Hc]); [..|by apply elem_of_nil in Hc];
    (split; simpl;
     [ intros w f [Hw|Hw]%elem_of_app Hf;
       [ by apply (Hold w f)
       | repeat (apply elem_of_cons in Hw as [->|Hw]);
         try (by apply elem_of_nil in Hw); simpl in Hf;
         repeat (apply elem_of_cons in Hf as [->|Hf]);
         try (by apply elem_of_nil in Hf); done ]
     | rewrite pending_app; unfold pending at 2; simpl; lia ]).
Qed.

(** ** The listener of ["closed"] on an arbitrary array *)

Lemma splice_indexOf_first (L : list BrowserWindow) bw before after :
  L = before ++ bw :: after → bw ∉ before →
  splice L (indexOf L bw) 1 = before ++ after.
Proof.
  clear appPath existsSync glob_match.
  intros -> Hb. unfold indexOf.
  assert (Hin : bw ∈ before ++ bw :: after) by set_solver.
  destruct (indexOf_from_split _ bw 0 Hin) as (pre & post & Heq & Hpre & ->).
  assert (pre = before) as ->.
  { clear -Heq Hb Hpre. revert pre Heq Hpre.
    induction before as [|x before IH]; intros [|y pre] Heq Hpre; simpl in *.
    - done.
    - injection Heq as <- _. exfalso. apply Hpre. left.
    - injection Heq as -> _. exfalso. apply Hb. left.
    - injection Heq as -> Heq. f_equal. apply IH; [|done|].
      + intros ?. apply Hb. by right.
      + intros ?. apply Hpre. by right. }
  rewrite Z.add_0_l. apply splice_one_at.
Qed.

Lemma array_at_on_closed bw σ l :
  array_at (on_closed bw σ l) l = splice (array_at σ l) (indexOf (array_at σ l) bw) 1.
Proof.
  clear appPath existsSync glob_match.
  unfold array_at, on_closed. simpl. rewrite list_lookup_alter_eq.
  assert (E : ∀ o : option (list BrowserWindow),
            default [] ((λ a, splice a (indexOf (default [] o) bw) 1) <$> o)
            = splice (default [] o) (indexOf (default [] o) bw) 1)
    by (by intros [?|]).
  apply E.
Qed.

(** ** Arrays of different coordinators, compared across processes *)

Lemma same_view_at_dispatch l σ l' τ ev :
  same_view_at l σ l' τ → same_view_at l (dispatch σ ev) l' (dispatch τ ev).
Proof.
  intros (Hh & Hc & Hd). destruct ev as [p|bw|bw].
  - rewrite !dispatch_FsChange. done.
  - simpl. split_and!.
    + rewrite !foldl_on_created_heap. by rewrite Hh, Hc.
    + destruct (foldl_on_created_frame bw (created_listeners σ) σ) as (_ & _ & ->).
      destruct (foldl_on_created_frame bw (created_listeners τ) τ) as (_ & _ & ->).
      done.
    + intros bw'. rewrite !foldl_on_created_closed_listeners, !filter_app, !length_app.
      rewrite Hd. destruct (decide (bw' = bw)); by rewrite ?Hc.
  - simpl. split_and!.
    + rewrite !foldl_on_closed_heap. by rewrite Hh, Hd.
    + destruct (foldl_on_closed_frame bw (closed_listeners_of σ bw) σ)
        as (_ & _ & -> & _).
      destruct (foldl_on_closed_frame bw (closed_listeners_of τ bw) τ)
        as (_ & _ & -> & _).
      done.
    + intros bw'. unfold closed_listeners_of at 1 3.
      destruct (foldl_on_closed_frame bw (closed_listeners_of σ bw) σ)
        as (_ & _ & _ & ->).
      destruct (foldl_on_closed_frame bw (closed_listeners_of τ bw) τ)
        as (_ & _ & _ & ->).
      apply Hd.
Qed.

Lemma same_view_at_run l l' evs : ∀ σ τ,
  same_view_at l σ l' τ → heap (run evs σ) !! l = heap (run evs τ) !! l'.
Proof.
  induction evs as [|ev evs IH]; intros σ τ Hv; [by destruct Hv|].
  simpl. by apply IH, same_view_at_dispatch.
Qed.

Lemma single_inv_dispatch σ ev : single_inv σ → single_inv (dispatch σ ev).
Proof.
  intros (Hc & Hlen & Hd). destruct ev as [p|bw|bw].
  - rewrite dispatch_FsChange. done.
  - simpl. split_and!.
    + by destruct (foldl_on_created_frame bw (created_listeners σ) σ) as (_ & _ & ->).
    + by rewrite foldl_on_created_length.
    + intros bw' l. rewrite foldl_on_created_closed_listeners, elem_of_app.
      intros [Hl|Hl]; [by apply (Hd bw')|].
      destruct (decide (bw' = bw)); [|by apply elem_of_nil in Hl].
      rewrite Hc in Hl. by apply list_elem_of_singleton in Hl.
  - simpl. split_and!.
    + by destruct (foldl_on_closed_frame bw (closed_listeners_of σ bw) σ)
        as (_ & _ & -> & _).
    + by rewrite foldl_on_closed_length.
    + intros bw' l. unfold closed_listeners_of at 1.
      destruct (foldl_on_closed_frame bw (closed_listeners_of σ bw) σ)
        as (_ & _ & _ & ->).
      apply Hd.
Qed.

Lemma single_inv_setup glob mainFile options :
  single_inv (electronReload glob mainFile options init).1.
Proof.
  destruct (electronReload_heap glob mainFile options init) as (Hh & Hc & Hd).
  split_and!; [done|by rewrite Hh|].
  intros bw l. unfold closed_listeners_of. rewrite Hd. simpl.
  rewrite lookup_empty. by intros ?%elem_of_nil.
Qed.

(** The array of a second coordinator starts like that of a coordinator
    alone in a fresh process. *)
Lemma second_call_same_view_at glob mainFile options glob' mainFile' options' σ :
  single_inv σ →
  same_view_at 1 (electronReload glob mainFile options σ).1
               0 (electronReload glob' mainFile' options' init).1.
Proof.
  intros (Hc & Hlen & Hd).
  destruct (electronReload_heap glob mainFile options σ) as (Hh & Hc' & Hd').
  destruct (electronReload_heap glob' mainFile' options' init) as (Hh0 & Hc0 & Hd0).
  split_and!.
  - rewrite Hh, Hh0. simpl.
    destruct (heap σ) as [|a [|b h]]; simpl in Hlen; [lia|done|lia].
  - by rewrite Hc', Hc0, Hc, Hlen.
  - intros bw. unfold closed_listeners_of. rewrite Hd', Hd0. simpl.
    rewrite lookup_empty. simpl.
    assert (Hnone : filter (λ x, x = 1) (default [] (closed_listeners σ !! bw)) = []).
    { apply elem_of_nil_inv. intros l [-> Hl]%list_elem_of_filter.
      by specialize (Hd bw 1 Hl). }
    by rewrite Hnone.
Qed.

(** ** What one change appends in a process with two watchers *)



Lemma run_app evs1 evs2 σ : run (evs1 ++ evs2) σ = run evs2 (run evs1 σ).
Proof. unfold run. by rewrite foldl_app. Qed.

Lemma run_window_events evs : ∀ σ,
  forallb is_window_event evs = true →
  watchers (run evs σ) = watchers σ ∧ log (run evs σ) = log σ.
Proof.
  induction evs as [|ev evs IH]; intros σ Hall; [done|].
  simpl in Hall. apply andb_true_iff in Hall as [Hev Hall].
  simpl. destruct (IH (dispatch σ ev) Hall) as [-> ->].
  apply dispatch_window_frame. intros p ->. done.
Qed.

Lemma run_file_events evs : ∀ σ,
  forallb (λ ev, negb (is_window_event ev)) evs = true →
  heap (run evs σ) = heap σ ∧
  created_listeners (run evs σ) = created_listeners σ ∧
  closed_listeners (run evs σ) = closed_listeners σ.
Proof.
  induction evs as [|ev evs IH]; intros σ Hall; [done|].
  simpl in Hall. apply andb_true_iff in Hall as [Hev Hall].
  simpl. destruct (IH (dispatch σ ev) Hall) as (-> & -> & ->).
  destruct ev as [p|bw|bw]; [|done..]. by rewrite dispatch_FsChange.
Qed.

(** ** One watcher told of a change *)



End electron_reload.

(** * The claims *)

(** ** Setup with a missing executable *)

(** C1 (as stated) fails: with an executable path that does not exist the
    call throws, but by then the soft watcher is established and its
    handler registered; a later change reloads a window. *)
Lemma missing_executable_leaves_soft_watcher :
  let '(σ, r) := electronReload (λ _, false) "*" "main.js"
                   (with_electron "/missing/electron" None) init in
  r = Throw error_message ∧
  length (watchers σ) = 1 ∧
  log (run "/app" sample_match [WindowCreated 7; FsChange "renderer.js"] σ)
  = [ReloadIgnoringCache 7].
Proof. vm_compute. done. Qed.

(** C1 (amended): a call whose non-empty [electron] path fails the existence
    check throws the configuration error after the soft watcher over the
    glob, its change handler and the window-created listener have been set
    up, and before any hard watcher is created or hard-reset handler
    registered; nothing was logged. *)
Theorem missing_executable_throws_before_hard_watcher
    (existsSync : string → bool) (glob mainFile : string)
    (options : ElectronReloadOptions) (σ : World) (exe : string) :
  electron options = Some exe → exe ≠ "" → existsSync exe = false →
  let '(σ', r) := electronReload existsSync glob mainFile options σ in
  r = Throw error_message ∧
  watchers σ' = watchers σ ++
    [{| w_paths := [glob]; w_options := soft_options mainFile options;
        w_listeners := [(false, SoftReset (length (heap σ)))];
        w_closed := false |}] ∧
  created_listeners σ' = created_listeners σ ++ [length (heap σ)] ∧
  log σ' = log σ.
Proof.
  intros He Hne Hex.
  rewrite electronReload_missing_executable.
  - done.
  - rewrite He. by apply truthy_Some.
  - by rewrite He.
Qed.

Lemma missing_executable_throws_before_hard_watcher_witness :
  let '(σ', r) := electronReload (λ _, false) "*" "main.js"
                    (with_electron "/missing/electron" None) init in
  r = Throw error_message ∧
  watchers σ' = watchers init ++
    [{| w_paths := ["*"];
        w_options := soft_options "main.js" (with_electron "/missing/electron" None);
        w_listeners := [(false, SoftReset (length (heap init)))];
        w_closed := false |}] ∧
  created_listeners σ' = created_listeners init ++ [length (heap init)] ∧
  log σ' = log init.
Proof.
  apply (missing_executable_throws_before_hard_watcher (λ _, false) "*" "main.js"
           (with_electron "/missing/electron" None) init "/missing/electron");
    [reflexivity|discriminate|reflexivity].
Defined.

(** ** The exclusion set of the soft watcher *)

(** C8 (as stated) fails: a caller-supplied [ignored] option replaces the
    default exclusion set; neither the fixed rule nor the entry-point file
    is excluded any more, and a change under [node_modules] reloads. *)
Lemma caller_ignored_replaces_exclusions :
  let σ := (electronReload (λ _, false) "*" "main.js"
              (with_ignored [MString "dist"]) init).1 in
  (λ w, ignored_of (w_options w)) <$> watchers σ !! 0 = Some [MString "dist"] ∧
  log (run "/app" sample_match
         [WindowCreated 7; FsChange "node_modules/x.js"; FsChange "main.js"] σ)
  = [ReloadIgnoringCache 7; ReloadIgnoringCache 7].
Proof. vm_compute. done. Qed.

(** C8 (amended): every call establishes the soft watcher over the glob
    with the caller's watch options passed through; its [ignored] option is
    the fixed rule plus the entry-point file when the caller supplies no
    [ignored] option, and the caller's own value when one is supplied. *)
Theorem soft_watcher_exclusions
    (existsSync : string → bool) (glob mainFile : string)
    (options : ElectronReloadOptions) (σ : World) :
  ∃ w, watchers (electronReload existsSync glob mainFile options σ).1
         !! length (watchers σ) = Some w ∧
    w_paths w = [glob] ∧
    (∀ k, k ≠ "ignored" → w_options w !! k = watchOptions options !! k) ∧
    w_options w !! "ignored"
    = match watchOptions options !! "ignored" with
      | Some v => Some v
      | None => Some (WMatchers [MIgnoredPaths; MString mainFile])
      end.
Proof.
  assert (Hopt : ∀ k,
    soft_options mainFile options !! k
    = match watchOptions options !! k with
      | Some v => Some v
      | None => if decide (k = "ignored")
                then Some (WMatchers [MIgnoredPaths; MString mainFile]) else None
      end).
  { intros k. unfold soft_options, Object_assign. rewrite lookup_union.
    destruct (watchOptions options !! k) as [v|] eqn:Hk.
    - by destruct ({[_ := _]} !! k).
    - destruct (decide (k = "ignored")) as [->|Hne].
      + by rewrite lookup_singleton_eq.
      + by rewrite lookup_singleton_ne. }
  pose proof (electronReload_cases existsSync glob mainFile options σ) as Hc.
  repeat (apply elem_of_cons in Hc as [->|Hc]); [..|by apply elem_of_nil in Hc];
    simpl; (eexists; split;
      [ first [ apply list_lookup_middle; reflexivity
              | rewrite (list_lookup_middle _ _ _ (length (watchers σ)) eq_refl);
                reflexivity ]
      | simpl; split_and!; [done| |] ]).
  all: try (intros k Hk; rewrite Hopt; destruct (watchOptions options !! k);
            [done|by rewrite decide_False]).
  all: rewrite Hopt; by destruct (watchOptions options !! "ignored").
Qed.

Lemma soft_watcher_exclusions_witness :
  ∃ w, watchers (electronReload (λ _, true) "*" "main.js"
                   (with_ignored [MString "dist"]) init).1 !! 0 = Some w ∧
    w_paths w = ["*"] ∧
    w_options w !! "usePolling"
    = watchOptions (with_ignored [MString "dist"]) !! "usePolling" ∧
    w_options w !! "ignored" = Some (WMatchers [MString "dist"]).
Proof.
  destruct (soft_watcher_exclusions (λ _, true) "*" "main.js"
              (with_ignored [MString "dist"]) init)
    as (w & Hw & Hp & Hother & Hign).
  exists w. split_and!; [exact Hw|exact Hp| |exact Hign].
  apply Hother. discriminate.
Defined.

(** ** Hard reset *)

(** C9: with an executable configured the hard-reset handler is registered
    with [once] on the hard watcher, and whatever events follow, the log of
    the process holds at most one spawn. *)
Theorem hard_reset_at_most_once
    (appPath : string) (glob_match : string → string → bool)
    (existsSync : string → bool) (glob mainFile : string)
    (options : ElectronReloadOptions) (exe : string) :
  electron options = Some exe → exe ≠ "" → existsSync exe = true →
  let '(σ0, r) := electronReload existsSync glob mainFile options init in
  r = Ok tt ∧
  (∃ sw hw, watchers σ0 = [sw; hw] ∧
            w_listeners hw = [(true, hard_listener options)]) ∧
  ∀ evs, spawns (log (run appPath glob_match evs σ0)) ≤ 1.
Proof.
  intros He Hne Hex.
  assert (Ht : truthy (electron options) = true)
    by (rewrite He; by apply truthy_Some).
  assert (Hex' : existsSync (default "" (electron options)) = true)
    by (by rewrite He).
  pose proof (setup_from_init appPath existsSync glob mainFile options)
    as (_ & _ & Honce & _).
  destruct (electronReload existsSync glob mainFile options init) as [σ0 r] eqn:Hrun.
  simpl in Honce. split_and!.
  - destruct (decide (forceHardReset options = Some true)).
    + rewrite electronReload_forced in Hrun by done. congruence.
    + rewrite electronReload_hard in Hrun by done. congruence.
  - destruct (decide (forceHardReset options = Some true)).
    + rewrite electronReload_forced in Hrun by done.
      injection Hrun as <- _. by eexists _, _.
    + rewrite electronReload_hard in Hrun by done.
      injection Hrun as <- _. by eexists _, _.
  - intros evs.
    assert (Hinv : once_inv 1 (run appPath glob_match evs σ0)).
    { apply (run_invariant appPath glob_match (once_inv 1)); [|done].
      intros. by apply once_inv_dispatch. }
    destruct Hinv as [_ Hle]. lia.
Qed.

Lemma hard_reset_at_most_once_witness :
  let '(σ0, r) := electronReload (λ _, true) "*" "main.js"
                    (with_electron "/usr/bin/electron" None) init in
  r = Ok tt ∧
  (∃ sw hw, watchers σ0 = [sw; hw] ∧
            w_listeners hw
            = [(true, hard_listener (with_electron "/usr/bin/electron" None))]) ∧
  ∀ evs, spawns (log (run "/app" sample_match evs σ0)) ≤ 1.
Proof.
  apply (hard_reset_at_most_once "/app" sample_match (λ _, true) "*" "main.js"
           (with_electron "/usr/bin/electron" None) "/usr/bin/electron");
    [reflexivity|discriminate|reflexivity].
Defined.

(** C2: with an existing executable and [forceHardReset] set, setup
    returns with the soft watcher closed and the hard watcher covering the
    entry-point file and the glob; from then on no event makes any window
    reload. *)
Theorem forced_hard_reset_closes_soft_watch
    (appPath : string) (glob_match : string → string → bool)
    (existsSync : string → bool) (glob mainFile : string)
    (options : ElectronReloadOptions) (exe : string) :
  electron options = Some exe → exe ≠ "" → existsSync exe = true →
  forceHardReset options = Some true →
  let '(σ0, r) := electronReload existsSync glob mainFile options init in
  r = Ok tt ∧
  watchers σ0 =
    [ {| w_paths := [glob]; w_options := soft_options mainFile options;
         w_listeners := []; w_closed := true |};
      {| w_paths := [mainFile; glob]; w_options := hard_options options;
         w_listeners := [(true, hard_listener options)]; w_closed := false |} ] ∧
  ∀ evs, Forall (λ e, is_reload e = false) (log (run appPath glob_match evs σ0)).
Proof.
  intros He Hne Hex Hf.
  rewrite electronReload_forced;
    [|rewrite He; by apply truthy_Some|by rewrite He|done].
  split_and!; [done..|]. intros evs.
  assert (Hinv : hard_only_inv
                   (run appPath glob_match evs (forced_stage glob mainFile options init))).
  { apply (run_invariant appPath glob_match hard_only_inv);
      [intros; by apply hard_only_inv_dispatch|].
    split; [|constructor]. intros w f Hw Hopen.
    repeat (apply elem_of_cons in Hw as [->|Hw]); [done| |by apply elem_of_nil in Hw].
    simpl. intros ->%list_elem_of_singleton. done. }
  by destruct Hinv.
Qed.

Lemma forced_hard_reset_closes_soft_watch_witness :
  let '(σ0, r) := electronReload (λ _, true) "*" "main.js"
                    (with_electron "/usr/bin/electron" (Some true)) init in
  r = Ok tt ∧
  watchers σ0 =
    [ {| w_paths := ["*"];
         w_options := soft_options "main.js"
                        (with_electron "/usr/bin/electron" (Some true));
         w_listeners := []; w_closed := true |};
      {| w_paths := ["main.js"; "*"];
         w_options := hard_options (with_electron "/usr/bin/electron" (Some true));
         w_listeners :=
           [(true, hard_listener (with_electron "/usr/bin/electron" (Some true)))];
         w_closed := false |} ] ∧
  ∀ evs, Forall (λ e, is_reload e = false) (log (run "/app" sample_match evs σ0)).
Proof.
  apply (forced_hard_reset_closes_soft_watch "/app" sample_match (λ _, true)
           "*" "main.js" (with_electron "/usr/bin/electron" (Some true))
           "/usr/bin/electron");
    [reflexivity|discriminate|reflexivity|reflexivity].
Defined.

(** C6: whatever the options and the events, a spawn found in the log of
    the process relaunches the configured executable with the arguments
    [electronArgv], then the application path, then [appArgv], an absent
    list counting as empty. *)
Theorem relaunch_argument_list
    (appPath : string) (glob_match : string → string → bool)
    (existsSync : string → bool) (glob mainFile : string)
    (options : ElectronReloadOptions) (evs : list event)
    (exe : string) (args : list string) (d : bool) (s : string) :
  Spawn exe args d s
    ∈ log (run appPath glob_match evs
             (electronReload existsSync glob mainFile options init).1) →
  args = default [] (electronArgv options) ++ [appPath]
         ++ default [] (appArgv options).
Proof.
  intros Hin.
  pose proof (setup_from_init appPath existsSync glob mainFile options)
    as (_ & _ & _ & Hrel & _).
  assert (Hinv : relaunch_inv appPath options
            (run appPath glob_match evs
               (electronReload existsSync glob mainFile options init).1)).
  { apply (run_invariant appPath glob_match (relaunch_inv appPath options));
      [|done].
    intros. by apply relaunch_inv_dispatch. }
  destruct Hinv as [_ Hlog]. rewrite Forall_forall in Hlog.
  destruct (Hlog _ Hin exe args d s eq_refl) as (_ & -> & _).
  unfold relaunch_args. by destruct (electronArgv options), (appArgv options).
Qed.

Lemma relaunch_argument_list_witness :
  Spawn "/usr/bin/electron" ["--inspect"; "/app"; "--dev"] true "inherit"
    ∈ log (run "/app" sample_match [FsChange "main.js"]
             (electronReload (λ _, true) "*" "main.js"
                (with_electron "/usr/bin/electron" None) init).1) ∧
  ["--inspect"; "/app"; "--dev"]
  = default [] (electronArgv (with_electron "/usr/bin/electron" None)) ++ ["/app"]
    ++ default [] (appArgv (with_electron "/usr/bin/electron" None)).
Proof.
  assert (Hin :
    Spawn "/usr/bin/electron" ["--inspect"; "/app"; "--dev"] true "inherit"
      ∈ log (run "/app" sample_match [FsChange "main.js"]
               (electronReload (λ _, true) "*" "main.js"
                  (with_electron "/usr/bin/electron" None) init).1)).
  { vm_compute. left. }
  split; [exact Hin|].
  exact (relaunch_argument_list "/app" sample_match (λ _, true) "*" "main.js"
           (with_electron "/usr/bin/electron" None) [FsChange "main.js"]
           "/usr/bin/electron" ["--inspect"; "/app"; "--dev"] true "inherit" Hin).
Defined.

(** C7: the hard-reset closure of a non-empty executable spawns the
    detached child with inherited streams, releases it, and only then
    terminates: with [app.exit] when [hardResetMethod] is ["exit"], with
    [app.quit] otherwise.  In the log of any run every termination call is
    directly preceded by that release and spawn. *)
Theorem spawn_precedes_termination
    (appPath : string) (exe : string) (method : option string)
    (eArgv aArgv : option (list string)) :
  exe ≠ "" →
  createHardResetHandler appPath (Some exe) method eArgv aArgv
  = [Spawn exe (default [] eArgv ++ [appPath] ++ default [] aArgv) true "inherit";
     ChildUnref;
     if decide (method = Some "exit") then AppExit else AppQuit] ∧
  ∀ glob_match existsSync glob mainFile options evs before t after,
    electron options = Some exe →
    log (run appPath glob_match evs
           (electronReload existsSync glob mainFile options init).1)
    = before ++ t :: after →
    is_termination t = true →
    ∃ before' args,
      before = before' ++ [Spawn exe args true "inherit"; ChildUnref].
Proof.
  intros Hne. split; [by apply createHardResetHandler_truthy|].
  intros glob_match existsSync glob mainFile options evs before t after He Hlog Ht.
  pose proof (setup_from_init appPath existsSync glob mainFile options)
    as (_ & Hnil & _ & Hrel & _).
  set (σ0 := (electronReload existsSync glob mainFile options init).1) in *.
  assert (Hord : ordered (log (run appPath glob_match evs σ0))).
  { apply (run_invariant appPath glob_match (λ σ, ordered (log σ))).
    - intros. by apply ordered_dispatch.
    - rewrite Hnil. constructor. }
  assert (Hinv : relaunch_inv appPath options (run appPath glob_match evs σ0)).
  { apply (run_invariant appPath glob_match (relaunch_inv appPath options));
      [|done].
    intros. by apply relaunch_inv_dispatch. }
  destruct (ordered_termination _ Hord _ _ _ Hlog Ht) as (b' & x & a & ->).
  exists b', a. destruct Hinv as [_ Hall]. rewrite Forall_forall in Hall.
  assert (Hx : electron options = Some x).
  { refine (proj1 (Hall (Spawn x a true "inherit") _ x a true "inherit" eq_refl)).
    rewrite Hlog. set_solver. }
  congruence.
Qed.

Lemma spawn_precedes_termination_witness :
  createHardResetHandler "/app" (Some "/usr/bin/electron") (Some "exit")
    (Some ["--inspect"]) None
  = [Spawn "/usr/bin/electron"
       (default [] (Some ["--inspect"]) ++ ["/app"] ++ default [] None) true "inherit";
     ChildUnref;
     if decide (Some "exit" = Some "exit") then AppExit else AppQuit] ∧
  ∃ before' args,
    [Spawn "/usr/bin/electron" ["--inspect"; "/app"; "--dev"] true "inherit";
     ChildUnref]
    = before' ++ [Spawn "/usr/bin/electron" args true "inherit"; ChildUnref].
Proof.
  destruct (spawn_precedes_termination "/app" "/usr/bin/electron" (Some "exit")
              (Some ["--inspect"]) None) as [Hbody Hlog]; [discriminate|].
  split; [exact Hbody|].
  apply (Hlog sample_match (λ _, true) "*" "main.js"
           (with_electron "/usr/bin/electron" None) [FsChange "main.js"]
           _ AppExit []); [reflexivity|vm_compute; reflexivity|reflexivity].
Defined.

(** ** Without an executable *)




(** With the default [ignored] and the entry-point file named in the form
    in which the soft watcher sees it, its change is silent. *)
Remark same_path_form_entry_point_change_is_silent :
  log (run "/app" sample_match [WindowCreated 7; FsChange "main.js"]
         (electronReload (λ _, false) "*" "main.js" no_options init).1)
  = [].
Proof. vm_compute. reflexivity. Qed.

(** ** The window registry *)

(** C4: after any events in which every window is created once and closed
    once, the array [browserWindows] holds each window that was created and
    not closed since, once, and no other; a ["closed"] event removes that
    window from the array and leaves the others in place. *)
Theorem window_registry_tracks_open_windows
    (appPath : string) (glob_match : string → string → bool)
    (existsSync : string → bool) (glob mainFile : string)
    (options : ElectronReloadOptions) (evs : list event) :
  lifecycle_ok evs →
  let σ := run appPath glob_match evs
             (electronReload existsSync glob mainFile options init).1 in
  NoDup (array_at σ 0) ∧
  (∀ bw, bw ∈ array_at σ 0 ↔ open_after evs bw) ∧
  (∀ bw, lifecycle_ok (evs ++ [WindowClosed bw]) →
         array_at (dispatch appPath glob_match σ (WindowClosed bw)) 0
         = filter (λ y, y ≠ bw) (array_at σ 0)).
Proof.
  intros Hok σ.
  pose proof (setup_from_init appPath existsSync glob mainFile options)
    as (Hreg & _).
  pose proof (registry_inv_run appPath glob_match evs _ Hok Hreg) as Hinv.
  fold σ in Hinv.
  pose proof Hinv as (_ & (L & Hh & Hnd & HL) & _).
  assert (HL' : array_at σ 0 = L) by (unfold array_at; by rewrite Hh).
  rewrite HL'. split_and!; [done..|].
  intros bw Hok'.
  destruct (registry_inv_step appPath glob_match evs (WindowClosed bw) σ Hok' Hinv)
    as [_ Hstep].
  by rewrite <- HL'.
Qed.

(** The life-cycle hypothesis is needed: were ["closed"] delivered twice
    for one window, the second delivery would find index [-1] and
    [splice(-1, 1)] would drop the last window of the array. *)
Remark second_closed_event_drops_last_window :
  array_at (run "/app" sample_match
              [WindowCreated 1; WindowCreated 2; WindowClosed 1; WindowClosed 1]
              (electronReload (λ _, false) "*" "main.js" no_options init).1) 0
  = [].
Proof. vm_compute. reflexivity. Qed.

Lemma window_registry_tracks_open_windows_witness :
  let evs := [WindowCreated 1; WindowCreated 2; FsChange "renderer.js";
              WindowClosed 1; WindowCreated 3] in
  let σ := run "/app" sample_match evs
             (electronReload (λ _, false) "*" "main.js" no_options init).1 in
  lifecycle_ok evs ∧
  NoDup (array_at σ 0) ∧
  (∀ bw, bw ∈ array_at σ 0 ↔ open_after evs bw) ∧
  (∀ bw, lifecycle_ok (evs ++ [WindowClosed bw]) →
         array_at (dispatch "/app" sample_match σ (WindowClosed bw)) 0
         = filter (λ y, y ≠ bw) (array_at σ 0)).
Proof.
  assert (Hok : lifecycle_ok [WindowCreated 1; WindowCreated 2;
                              FsChange "renderer.js"; WindowClosed 1;
                              WindowCreated 3]).
  { split; apply (bool_decide_unpack _); vm_compute; exact I. }
  split; [exact Hok|].
  exact (window_registry_tracks_open_windows "/app" sample_match (λ _, false)
           "*" "main.js" no_options _ Hok).
Defined.

(** C5: when the soft watcher reports a change, the reloads appended to the
    log are one [reloadIgnoringCache] per entry of [browserWindows], in
    array order; with well-formed window life cycles that is exactly one
    call for each window open at that time and none for any other. *)
Theorem soft_reset_reloads_tracked_windows
    (appPath : string) (glob_match : string → string → bool)
    (existsSync : string → bool) (glob mainFile : string)
    (options : ElectronReloadOptions) (evs : list event)
    (p : string) (sw : FSWatcher) :
  let σ := run appPath glob_match evs
             (electronReload existsSync glob mainFile options init).1 in
  let new := appended σ (dispatch appPath glob_match σ (FsChange p)) in
  watchers σ !! 0 = Some sw → reports glob_match sw p = true →
  filter (λ e, is_reload e = true) new = softResetHandler (array_at σ 0) ∧
  (lifecycle_ok evs →
   ∀ bw, (open_after evs bw → reloads_of bw new = 1) ∧
         (¬ open_after evs bw → reloads_of bw new = 0)).
Proof.
  intros σ new Hsw Hrep.
  pose proof (setup_from_init appPath existsSync glob mainFile options)
    as (Hreg & _ & _ & _ & Hws).
  assert (Hinv : watchers_inv options (watchers σ)).
  { apply (run_invariant appPath glob_match (λ σ, watchers_inv options (watchers σ)));
      [|done].
    intros. by apply watchers_inv_dispatch. }
  assert (Hnew : filter (λ e, is_reload e = true) new
                 = softResetHandler (array_at σ 0)).
  { unfold new. rewrite appended_dispatch_FsChange.
    destruct Hinv as (sw' & Hshape & Hcase).
    assert (sw' = sw) as ->.
    { destruct Hcase as [Hw|(hw & Hw & _)]; rewrite Hw in Hsw; by simplify_eq/=. }
    destruct Hshape as [[Hl _]|[_ Hc]];
      [|by rewrite (reports_open glob_match sw p Hrep) in Hc].
    assert (Hsoft : watcher_effects appPath glob_match (heap σ) p sw
                    = softResetHandler (array_at σ 0)).
    { unfold watcher_effects. rewrite Hrep, Hl. simpl. by rewrite app_nil_r. }
    destruct Hcase as [->|(hw & -> & Hhw & _)]; simpl; rewrite Hsoft, ?app_nil_r.
    - apply filter_reload_softResetHandler.
    - rewrite filter_app, filter_reload_softResetHandler.
      unfold watcher_effects. destruct (reports glob_match hw p);
        [|by rewrite app_nil_r].
      destruct Hhw as [->| ->]; simpl; [|by rewrite app_nil_r].
      rewrite app_nil_r, filter_reload_createHardResetHandler.
      by rewrite app_nil_r. }
  split; [done|]. intros Hok bw.
  pose proof (registry_inv_run appPath glob_match evs _ Hok Hreg)
    as (_ & (L & Hh & Hnd & HL) & _).
  fold σ in Hh.
  assert (HL' : array_at σ 0 = L) by (unfold array_at; by rewrite Hh).
  assert (Hcount : reloads_of bw new = if decide (bw ∈ L) then 1 else 0).
  { rewrite <- (reloads_of_softResetHandler bw L) by done.
    rewrite <- HL', <- Hnew.
    unfold reloads_of. rewrite list_filter_filter. f_equal.
    apply list_filter_iff. intros e. split; [by intros ->|by intros [? _]]. }
  rewrite Hcount. split; intros Hopen.
  - rewrite decide_True; [done|]. by apply HL.
  - rewrite decide_False; [done|]. by rewrite HL.
Qed.

Lemma soft_reset_reloads_tracked_windows_witness :
  let evs := [WindowCreated 1; WindowCreated 2; WindowClosed 1] in
  let sw := {| w_paths := ["*"]; w_options := soft_options "main.js" no_options;
               w_listeners := [(false, SoftReset 0)]; w_closed := false |} in
  let σ := run "/app" sample_match evs
             (electronReload (λ _, false) "*" "main.js" no_options init).1 in
  let new := appended σ (dispatch "/app" sample_match σ (FsChange "renderer.js")) in
  watchers σ !! 0 = Some sw ∧
  reports sample_match sw "renderer.js" = true ∧
  lifecycle_ok evs ∧
  filter (λ e, is_reload e = true) new = softResetHandler (array_at σ 0) ∧
  ∀ bw, (open_after evs bw → reloads_of bw new = 1) ∧
        (¬ open_after evs bw → reloads_of bw new = 0).
Proof.
  intros evs sw σ new.
  assert (Hsw : watchers σ !! 0 = Some sw) by (vm_compute; reflexivity).
  assert (Hrep : reports sample_match sw "renderer.js" = true)
    by (vm_compute; reflexivity).
  assert (Hok : lifecycle_ok evs)
    by (split; apply (bool_decide_unpack _); vm_compute; exact I).
  split_and!; [exact Hsw|exact Hrep|exact Hok|..].
  - exact (proj1 (soft_reset_reloads_tracked_windows "/app" sample_match
             (λ _, false) "*" "main.js" no_options evs "renderer.js" sw Hsw Hrep)).
  - exact (proj2 (soft_reset_reloads_tracked_windows "/app" sample_match
             (λ _, false) "*" "main.js" no_options evs "renderer.js" sw Hsw Hrep)
             Hok).
Defined.

(** ** One array per call *)

(** C10: each call allocates its own array, empty, at an address no earlier
    call or event has used, and the listeners it registers capture that
    address; a later call, whatever happened in between, gets a different
    address and leaves the earlier array as it is, now and under every
    later sequence of events; a window listener changes the array it
    captured and no other. *)
Theorem fresh_window_collection_per_call
    (appPath : string) (glob_match : string → string → bool)
    (existsSync : string → bool)
    (glob1 mainFile1 : string) (options1 : ElectronReloadOptions)
    (glob2 mainFile2 : string) (options2 : ElectronReloadOptions)
    (σ : World) (evs : list event) :
  let l1 := length (heap σ) in
  let σ1 := (electronReload existsSync glob1 mainFile1 options1 σ).1 in
  let σ1' := run appPath glob_match evs σ1 in
  let l2 := length (heap σ1') in
  let σ2 := (electronReload existsSync glob2 mainFile2 options2 σ1').1 in
  (heap σ !! l1 = None ∧ heap σ1 !! l1 = Some [] ∧
   created_listeners σ1 = created_listeners σ ++ [l1]) ∧
  (l2 ≠ l1 ∧ heap σ1' !! l2 = None ∧ heap σ2 !! l2 = Some [] ∧
   created_listeners σ2 = created_listeners σ1' ++ [l2]) ∧
  (∀ evs', heap (run appPath glob_match evs' σ2) !! l1
           = heap (run appPath glob_match evs' σ1') !! l1) ∧
  (∀ bw τ l l', l ≠ l' →
     heap (on_created bw τ l) !! l' = heap τ !! l' ∧
     heap (on_closed bw τ l) !! l' = heap τ !! l').
Proof.
  intros l1 σ1 σ1' l2 σ2.
  destruct (electronReload_heap existsSync glob1 mainFile1 options1 σ)
    as (Hh1 & Hc1 & _).
  destruct (electronReload_heap existsSync glob2 mainFile2 options2 σ1')
    as (Hh2 & Hc2 & _).
  fold σ1 in Hh1, Hc1. fold σ2 in Hh2, Hc2.
  assert (Hl2 : l2 = S l1).
  { unfold l2, σ1'. rewrite run_heap_length, Hh1, length_app. simpl. unfold l1. lia. }
  split_and!.
  - by apply lookup_ge_None_2.
  - rewrite Hh1. by apply list_lookup_middle.
  - done.
  - lia.
  - by apply lookup_ge_None_2.
  - rewrite Hh2. by apply list_lookup_middle.
  - done.
  - intros evs'. apply same_view_run, electronReload_same_view.
    fold l2. lia.
  - intros bw τ l l' Hne. split.
    + by apply on_created_other.
    + by apply on_closed_other.
Qed.

Lemma fresh_window_collection_per_call_witness :
  let σ1 := (electronReload (λ _, true) "*" "main.js" no_options init).1 in
  let σ1' := run "/app" sample_match [WindowCreated 1] σ1 in
  let σ2 := (electronReload (λ _, true) "src/*" "index.js"
               (with_electron "/usr/bin/electron" None) σ1').1 in
  0 ≠ 1 ∧
  heap σ2 !! 0 = Some [1] ∧ heap σ2 !! 1 = Some [] ∧
  heap (on_created 2 σ2 1) !! 0 = heap σ2 !! 0 ∧
  heap (on_closed 1 σ2 1) !! 0 = heap σ2 !! 0.
Proof.
  intros σ1 σ1' σ2.
  destruct (fresh_window_collection_per_call "/app" sample_match (λ _, true)
              "*" "main.js" no_options "src/*" "index.js"
              (with_electron "/usr/bin/electron" None) init [WindowCreated 1])
    as (_ & (_ & _ & Hnew & _) & Hold & Hframe).
  assert (Hne : 1 ≠ 0) by lia.
  split_and!; [lia| |exact Hnew|exact (proj1 (Hframe 2 σ2 1 0 Hne))
              |exact (proj2 (Hframe 1 σ2 1 0 Hne))].
  etransitivity; [exact (Hold [])|]. vm_compute. reflexivity.
Defined.

(** * Further properties of the code *)

(** ** The fixed exclusion rule *)

(** X1: [ignoredPaths] matches a path exactly when it contains
    [node_modules], or a slash or a backslash followed by a dot. *)
Theorem ignoredPaths_matches (p : string) :
  ignoredPaths p = true ↔
  occurs "node_modules" p ∨ occurs "/." p ∨ occurs "\." p.
Proof.
  unfold ignoredPaths. rewrite !orb_true_iff, !contains_occurs. tauto.
Qed.

(** ** Outcome of setup *)

(** X2: a call throws exactly when [electron] is a non-empty path that
    fails the existence check, and then with the fixed message; in every
    other case, an empty path included, it returns normally.  No call logs
    anything. *)
Theorem setup_throws_iff_executable_missing
    (existsSync : string → bool) (glob mainFile : string)
    (options : ElectronReloadOptions) (σ : World) :
  let '(σ', r) := electronReload existsSync glob mainFile options σ in
  (r = Throw error_message ↔
   ∃ exe, electron options = Some exe ∧ exe ≠ "" ∧ existsSync exe = false) ∧
  (r = Ok tt ↔
   ¬ ∃ exe, electron options = Some exe ∧ exe ≠ "" ∧ existsSync exe = false) ∧
  log σ' = log σ.
Proof.
  destruct (truthy (electron options)) eqn:Ht.
  - destruct (electron options) as [exe|] eqn:He; [|done].
    assert (Hne : exe ≠ "") by (intros ->; done).
    destruct (existsSync exe) eqn:Hex.
    + assert (Hno : ¬ ∃ exe', Some exe = Some exe' ∧ exe' ≠ "" ∧ existsSync exe' = false)
        by (intros (? & [= <-] & _ & ?); congruence).
      destruct (decide (forceHardReset options = Some true)).
      * rewrite electronReload_forced by (by rewrite ?He).
        split_and!; [split; [done|by intros ?]|done|done].
      * rewrite electronReload_hard by (by rewrite ?He).
        split_and!; [split; [done|by intros ?]|done|done].
    + rewrite electronReload_missing_executable by (by rewrite ?He).
      split_and!; [split; [by exists exe|done]| |done].
      split; [done|]. intros Hno. destruct Hno. by exists exe.
  - rewrite electronReload_no_executable by done.
    assert (Hno : ¬ ∃ exe, electron options = Some exe ∧ exe ≠ "" ∧ existsSync exe = false).
    { intros (exe & He & Hne & _). rewrite He in Ht. simpl in Ht.
      by destruct (String.eqb_spec exe ""). }
    split_and!; [split; [done|by intros ?]|done|done].
Qed.

(** X3: without a usable executable ([electron] absent or empty) the option
    [forceHardReset] changes nothing: setup returns normally with the soft
    watcher open and listening, and no hard watcher. *)
Theorem force_without_executable_is_ignored
    (existsSync : string → bool) (glob mainFile : string)
    (options : ElectronReloadOptions) (force : option bool) (σ : World) :
  truthy (electron options) = false →
  electronReload existsSync glob mainFile (set_forceHardReset force options) σ
  = electronReload existsSync glob mainFile options σ ∧
  (electronReload existsSync glob mainFile (set_forceHardReset force options) σ).2
  = Ok tt ∧
  watchers (electronReload existsSync glob mainFile
              (set_forceHardReset force options) σ).1
  = watchers σ ++
    [{| w_paths := [glob]; w_options := soft_options mainFile options;
        w_listeners := [(false, SoftReset (length (heap σ)))];
        w_closed := false |}].
Proof.
  intros Ht.
  rewrite (electronReload_no_executable existsSync glob mainFile
             (set_forceHardReset force options)) by done.
  rewrite electronReload_no_executable by done. done.
Qed.

Lemma force_without_executable_is_ignored_witness :
  electronReload (λ _, true) "*" "main.js"
    (set_forceHardReset (Some true) (with_ignored [])) init
  = electronReload (λ _, true) "*" "main.js" (with_ignored []) init.
Proof.
  apply (force_without_executable_is_ignored (λ _, true) "*" "main.js"
           (with_ignored []) (Some true) init).
  reflexivity.
Defined.

(** ** The default split between soft and hard reset *)





(** ** Forced hard reset *)

(** X6: set up with an existing executable and [forceHardReset], the log of
    the process is empty or holds exactly the three calls of one hard reset,
    whatever events occur. *)
Theorem forced_log_is_one_hard_reset
    (appPath : string) (glob_match : string → string → bool)
    (existsSync : string → bool) (glob mainFile : string)
    (options : ElectronReloadOptions) (exe : string) (evs : list event) :
  electron options = Some exe → exe ≠ "" → existsSync exe = true →
  forceHardReset options = Some true →
  let l := log (run appPath glob_match evs
                  (electronReload existsSync glob mainFile options init).1) in
  l = [] ∨ l = hard_reset_calls appPath options exe.
Proof.
  intros He Hne Hex Hf.
  rewrite electronReload_forced by (by rewrite ?He; try apply truthy_Some).
  cbn [fst].
  destruct (forced_inv_run appPath glob_match glob mainFile options exe evs _
              He Hne (forced_inv_init appPath glob mainFile options exe))
    as ([] & _ & Hlog); simpl; rewrite Hlog; [by right|by left].
Qed.

Lemma forced_log_is_one_hard_reset_witness :
  let l := log (run "/app" sample_match
                  [FsChange "renderer.js"; WindowCreated 1; FsChange "main.js"]
                  (electronReload (λ _, true) "*" "main.js"
                     (with_electron "/usr/bin/electron" (Some true)) init).1) in
  l = [] ∨
  l = hard_reset_calls "/app" (with_electron "/usr/bin/electron" (Some true))
        "/usr/bin/electron".
Proof.
  apply (forced_log_is_one_hard_reset "/app" sample_match (λ _, true) "*" "main.js"
           (with_electron "/usr/bin/electron" (Some true)) "/usr/bin/electron");
    first [reflexivity|discriminate].
Defined.

(** X7: in that setup, without a caller's [ignored] option, as soon as the
    events include a change of a file matched by the glob or by the
    entry-point file and not excluded by [ignoredPaths], the log holds the
    hard reset. *)
Theorem forced_any_watched_change_hard_resets
    (appPath : string) (glob_match : string → string → bool)
    (existsSync : string → bool) (glob mainFile : string)
    (options : ElectronReloadOptions) (exe : string)
    (evs : list event) (p : string) :
  electron options = Some exe → exe ≠ "" → existsSync exe = true →
  forceHardReset options = Some true →
  watchOptions options !! "ignored" = None →
  FsChange p ∈ evs →
  glob_match mainFile p || glob_match glob p = true → ignoredPaths p = false →
  log (run appPath glob_match evs
         (electronReload existsSync glob mainFile options init).1)
  = hard_reset_calls appPath options exe.
Proof.
  intros He Hne Hex Hf Hign Hin Hm Hnot.
  rewrite electronReload_forced by (by rewrite ?He; try apply truthy_Some).
  cbn [fst].
  apply (forced_run_fires appPath glob_match glob mainFile options exe p);
    [done|done|apply forced_inv_init|done|].
  rewrite reports_hard_watcher0_default by done.
  simpl. rewrite orb_false_r, Hm, Hnot. done.
Qed.

Lemma forced_any_watched_change_hard_resets_witness :
  log (run "/app" sample_match
         [WindowCreated 1; FsChange "renderer.js"; FsChange "main.js"]
         (electronReload (λ _, true) "*" "main.js"
            (with_electron "/usr/bin/electron" (Some true)) init).1)
  = hard_reset_calls "/app" (with_electron "/usr/bin/electron" (Some true))
      "/usr/bin/electron".
Proof.
  apply (forced_any_watched_change_hard_resets "/app" sample_match (λ _, true)
           "*" "main.js" (with_electron "/usr/bin/electron" (Some true))
           "/usr/bin/electron" _ "renderer.js");
    first [reflexivity|discriminate|set_solver].
Defined.

(** ** Excluded paths and the soft watcher *)

(** X8: without a caller's [ignored] option, a change of a file that
    [ignoredPaths] matches leaves the process exactly as it was, in every
    setup and after any events: no reload, no hard reset, no listener
    consumed. *)
Theorem ignored_path_change_is_invisible
    (appPath : string) (glob_match : string → string → bool)
    (existsSync : string → bool) (glob mainFile : string)
    (options : ElectronReloadOptions) (evs : list event) (p : string) :
  watchOptions options !! "ignored" = None →
  ignoredPaths p = true →
  let σ := run appPath glob_match evs
             (electronReload existsSync glob mainFile options init).1 in
  dispatch appPath glob_match σ (FsChange p) = σ.
Proof.
  intros Hign Hp σ.
  assert (Hinv : default_ignored_inv σ).
  { apply (run_invariant appPath glob_match default_ignored_inv).
    - intros. by apply default_ignored_inv_dispatch.
    - by apply default_ignored_inv_setup. }
  apply dispatch_FsChange_unreported. intros w Hw.
  apply reports_ignoredPaths; [by apply Hinv|done].
Qed.

Lemma ignored_path_change_is_invisible_witness :
  let σ := run "/app" sample_match [WindowCreated 1]
             (electronReload (λ _, true) "*" "main.js"
                (with_electron "/usr/bin/electron" None) init).1 in
  dispatch "/app" sample_match σ (FsChange "node_modules/chokidar/index.js") = σ.
Proof.
  apply (ignored_path_change_is_invisible "/app" sample_match (λ _, true)
           "*" "main.js" (with_electron "/usr/bin/electron" None)
           [WindowCreated 1] "node_modules/chokidar/index.js"); reflexivity.
Defined.

(** X9: whatever the options, no event changes the soft watcher: it keeps
    the paths, options, listener and open or closed state that setup gave
    it, so soft reset stays available for the life of the process. *)
Theorem soft_watcher_is_never_altered
    (appPath : string) (glob_match : string → string → bool)
    (existsSync : string → bool) (glob mainFile : string)
    (options : ElectronReloadOptions) (evs : list event) :
  let σ0 := (electronReload existsSync glob mainFile options init).1 in
  watchers (run appPath glob_match evs σ0) !! 0 = watchers σ0 !! 0 ∧
  ∃ sw, watchers σ0 !! 0 = Some sw ∧ w_paths sw = [glob] ∧
        (w_closed sw = false → w_listeners sw = [(false, SoftReset 0)]).
Proof.
  intros σ0.
  assert (Hsw : ∃ sw, watchers σ0 !! 0 = Some sw ∧ drop_once sw = sw ∧
                      w_paths sw = [glob] ∧
                      (w_closed sw = false → w_listeners sw = [(false, SoftReset 0)])).
  { unfold σ0.
    pose proof (electronReload_cases existsSync glob mainFile options init) as Hc.
    repeat (apply elem_of_cons in Hc as [->|Hc]); [..|by apply elem_of_nil in Hc];
      eexists; (split; [reflexivity|]); done. }
  destruct Hsw as (sw & Hsw & Hkeep & Hp & Hl).
  split; [|by exists sw].
  rewrite Hsw.
  apply (run_invariant appPath glob_match (λ σ, watchers σ !! 0 = Some sw));
    [|done].
  intros σ ev Hσ. by apply dispatch_first_watcher.
Qed.

(** ** Several coordinators in one process *)

(** X10: in a process whose hard-reset listeners are all one-shot and whose
    spawns and waiting hard-reset listeners number at most [n], one more
    call keeps the spawns of every later run at [n + 1] or fewer: each
    coordinator adds at most one hard reset. *)
Theorem each_call_adds_at_most_one_spawn
    (appPath : string) (glob_match : string → string → bool)
    (existsSync : string → bool) (glob mainFile : string)
    (options : ElectronReloadOptions) (n : nat) (σ : World) (evs : list event) :
  once_inv n σ →
  spawns (log (run appPath glob_match evs
                 (electronReload existsSync glob mainFile options σ).1)) ≤ n + 1.
Proof.
  intros Hσ.
  assert (Hinv : once_inv (S n)
            (run appPath glob_match evs
               (electronReload existsSync glob mainFile options σ).1)).
  { apply (run_invariant appPath glob_match (once_inv (S n))).
    - intros. by apply once_inv_dispatch.
    - by apply once_inv_electronReload. }
  destruct Hinv as [_ Hle]. lia.
Qed.

Lemma each_call_adds_at_most_one_spawn_witness :
  spawns (log (run "/app" sample_match [FsChange "main.js"; FsChange "index.js"]
                 (electronReload (λ _, true) "src/*" "index.js"
                    (with_electron "/usr/bin/electron" None)
                    (electronReload (λ _, true) "*" "main.js"
                       (with_electron "/usr/bin/electron" None) init).1).1))
  ≤ 1 + 1.
Proof.
  apply (each_call_adds_at_most_one_spawn "/app" sample_match (λ _, true)
           "src/*" "index.js" (with_electron "/usr/bin/electron" None) 1).
  apply (once_inv_electronReload (λ _, true) 0 "*" "main.js"
           (with_electron "/usr/bin/electron" None) init).
  split; [intros w f Hw; by apply elem_of_nil in Hw|].
  vm_compute. lia.
Defined.

(** X11: after a second call, the first coordinator's array still holds
    exactly the windows created since the first call and not closed, and the
    second coordinator's array exactly those created since the second call
    and not closed. *)
Theorem two_coordinators_track_independently
    (appPath : string) (glob_match : string → string → bool)
    (existsSync : string → bool)
    (glob1 mainFile1 : string) (options1 : ElectronReloadOptions)
    (glob2 mainFile2 : string) (options2 : ElectronReloadOptions)
    (evs1 evs2 : list event) :
  let σ1 := (electronReload existsSync glob1 mainFile1 options1 init).1 in
  let σ2 := (electronReload existsSync glob2 mainFile2 options2
               (run appPath glob_match evs1 σ1)).1 in
  let σ := run appPath glob_match evs2 σ2 in
  (lifecycle_ok (evs1 ++ evs2) →
   NoDup (array_at σ 0) ∧
   ∀ bw, bw ∈ array_at σ 0 ↔ open_after (evs1 ++ evs2) bw) ∧
  (lifecycle_ok evs2 →
   NoDup (array_at σ 1) ∧ ∀ bw, bw ∈ array_at σ 1 ↔ open_after evs2 bw).
Proof.
  intros σ1 σ2 σ.
  assert (Hsingle : single_inv (run appPath glob_match evs1 σ1)).
  { apply (run_invariant appPath glob_match single_inv).
    - intros. by apply single_inv_dispatch.
    - apply single_inv_setup. }
  pose proof (setup_from_init appPath existsSync glob1 mainFile1 options1)
    as (Hreg1 & _).
  pose proof (setup_from_init appPath existsSync glob2 mainFile2 options2)
    as (Hreg2 & _).
  split; intros Hok.
  - assert (Hheap : heap σ !! 0
                    = heap (run appPath glob_match (evs1 ++ evs2) σ1) !! 0).
    { rewrite run_app. unfold σ, σ2.
      apply same_view_run, electronReload_same_view.
      destruct Hsingle as (_ & -> & _). lia. }
    destruct (registry_inv_run appPath glob_match _ _ Hok Hreg1)
      as (_ & (L & Hh & Hnd & HL) & _).
    fold σ1 in Hh. unfold array_at. rewrite Hheap, Hh. done.
  - assert (Hheap : heap σ !! 1
                    = heap (run appPath glob_match evs2
                              (electronReload existsSync glob2 mainFile2 options2
                                 init).1) !! 0).
    { unfold σ, σ2. by apply same_view_at_run, second_call_same_view_at. }
    destruct (registry_inv_run appPath glob_match _ _ Hok Hreg2)
      as (_ & (L & Hh & Hnd & HL) & _).
    unfold array_at. rewrite Hheap, Hh. done.
Qed.

Lemma two_coordinators_track_independently_witness :
  let evs1 := [WindowCreated 1; WindowCreated 2] in
  let evs2 := [WindowClosed 1; WindowCreated 3] in
  let σ1 := (electronReload (λ _, true) "*" "main.js" no_options init).1 in
  let σ2 := (electronReload (λ _, true) "src/*" "index.js" no_options
               (run "/app" sample_match evs1 σ1)).1 in
  let σ := run "/app" sample_match evs2 σ2 in
  lifecycle_ok (evs1 ++ evs2) ∧ lifecycle_ok evs2 ∧
  (NoDup (array_at σ 0) ∧
   ∀ bw, bw ∈ array_at σ 0 ↔ open_after (evs1 ++ evs2) bw) ∧
  (NoDup (array_at σ 1) ∧ ∀ bw, bw ∈ array_at σ 1 ↔ open_after evs2 bw).
Proof.
  intros evs1 evs2 σ1 σ2 σ.
  assert (Hok : lifecycle_ok (evs1 ++ evs2))
    by (split; apply (bool_decide_unpack _); vm_compute; exact I).
  assert (Hok2 : lifecycle_ok evs2)
    by (split; apply (bool_decide_unpack _); vm_compute; exact I).
  destruct (two_coordinators_track_independently "/app" sample_match (λ _, true)
              "*" "main.js" no_options "src/*" "index.js" no_options evs1 evs2)
    as [H1 H2].
  split; [exact Hok|]. split; [exact Hok2|].
  split; [exact (H1 Hok)|exact (H2 Hok2)].
Defined.

(** ** The listener of ["closed"] *)

(** X12: the listener of ["closed"] removes the first occurrence of its
    window from the array it captured and keeps the order of the rest; when
    the window is not in the array, the index is [-1] and the last element
    of the array is removed instead. *)
Theorem closed_listener_removes_one_element
    (bw : BrowserWindow) (σ : World) (l : loc) :
  (∀ before after, array_at σ l = before ++ bw :: after → bw ∉ before →
     array_at (on_closed bw σ l) l = before ++ after) ∧
  (bw ∉ array_at σ l →
   array_at (on_closed bw σ l) l
   = take (length (array_at σ l) - 1) (array_at σ l)).
Proof.
  rewrite array_at_on_closed. split.
  - intros before after Heq Hb. by apply splice_indexOf_first.
  - intros Hnot. by apply splice_indexOf_untracked.
Qed.

Lemma closed_listener_removes_one_element_witness :
  let σ := run "/app" sample_match [WindowCreated 1; WindowCreated 2; WindowCreated 3]
             (electronReload (λ _, true) "*" "main.js" no_options init).1 in
  array_at (on_closed 2 σ 0) 0 = [1] ++ [3] ∧
  array_at (on_closed 9 σ 0) 0 = take (length (array_at σ 0) - 1) (array_at σ 0).
Proof.
  intros σ.
  destruct (closed_listener_removes_one_element 2 σ 0) as [Hin _].
  destruct (closed_listener_removes_one_element 9 σ 0) as [_ Hout].
  split.
  - apply Hin; [vm_compute; reflexivity|]. set_solver.
  - apply Hout. vm_compute. set_solver.
Defined.

(** ** What the two kinds of events leave alone *)

(** X13: in any process, window events never log a call and never change a
    watcher, and file changes never change an array of windows or a window
    listener. *)
Theorem window_and_file_events_are_separate
    (appPath : string) (glob_match : string → string → bool)
    (evs : list event) (σ : World) :
  (forallb is_window_event evs = true →
   log (run appPath glob_match evs σ) = log σ ∧
   watchers (run appPath glob_match evs σ) = watchers σ) ∧
  (forallb (λ ev, negb (is_window_event ev)) evs = true →
   heap (run appPath glob_match evs σ) = heap σ ∧
   created_listeners (run appPath glob_match evs σ) = created_listeners σ ∧
   closed_listeners (run appPath glob_match evs σ) = closed_listeners σ).
Proof.
  split; intros Hall.
  - by destruct (run_window_events appPath glob_match evs σ Hall) as [-> ->].
  - by apply run_file_events.
Qed.

Lemma window_and_file_events_are_separate_witness :
  let σ := (electronReload (λ _, true) "*" "main.js"
              (with_electron "/usr/bin/electron" None) init).1 in
  (log (run "/app" sample_match [WindowCreated 1; WindowClosed 1] σ) = log σ ∧
   watchers (run "/app" sample_match [WindowCreated 1; WindowClosed 1] σ)
   = watchers σ) ∧
  (heap (run "/app" sample_match [FsChange "main.js"] σ) = heap σ ∧
   created_listeners (run "/app" sample_match [FsChange "main.js"] σ)
   = created_listeners σ ∧
   closed_listeners (run "/app" sample_match [FsChange "main.js"] σ)
   = closed_listeners σ).
Proof.
  intros σ. split.
  - apply (window_and_file_events_are_separate "/app" sample_match
             [WindowCreated 1; WindowClosed 1] σ). reflexivity.
  - apply (window_and_file_events_are_separate "/app" sample_match
             [FsChange "main.js"] σ). reflexivity.
Defined.

(** ** After a failed setup, and the hard watcher's options *)

(** X14: a call that throws leaves the process exactly as the same call
    without the [electron] option would: a complete soft-reset coordinator. *)
Theorem failed_setup_leaves_soft_coordinator
    (existsSync : string → bool) (glob mainFile : string)
    (options : ElectronReloadOptions) (σ : World) (msg : string) :
  (electronReload existsSync glob mainFile options σ).2 = Throw msg →
  (electronReload existsSync glob mainFile options σ).1
  = (electronReload existsSync glob mainFile (without_electron options) σ).1 ∧
  (electronReload existsSync glob mainFile (without_electron options) σ).2 = Ok tt.
Proof.
  intros Hthrow.
  rewrite (electronReload_no_executable existsSync glob mainFile
             (without_electron options)) by done.
  split; [|done].
  pose proof (electronReload_cases existsSync glob mainFile options σ) as Hc.
  repeat (apply elem_of_cons in Hc as [Hc|Hc]); [..|by apply elem_of_nil in Hc];
    rewrite Hc in Hthrow |- *; done.
Qed.

Lemma failed_setup_leaves_soft_coordinator_witness :
  (electronReload (λ _, false) "*" "main.js"
     (with_electron "/missing/electron" (Some true)) init).1
  = (electronReload (λ _, false) "*" "main.js"
       (without_electron (with_electron "/missing/electron" (Some true))) init).1 ∧
  (electronReload (λ _, false) "*" "main.js"
     (without_electron (with_electron "/missing/electron" (Some true))) init).2
  = Ok tt.
Proof.
  apply (failed_setup_leaves_soft_coordinator (λ _, false) "*" "main.js"
           (with_electron "/missing/electron" (Some true)) init error_message).
  reflexivity.
Defined.

(** X15: with an existing executable the hard watcher is created right
    after the soft watcher, over the entry-point file (and the glob under
    [forceHardReset]), with the one-shot hard-reset listener; it gets the
    caller's watch options, and its [ignored] option is the fixed rule alone
    unless the caller supplies one, which then replaces it. *)
Theorem hard_watcher_setup
    (existsSync : string → bool) (glob mainFile : string)
    (options : ElectronReloadOptions) (σ : World) (exe : string) :
  electron options = Some exe → exe ≠ "" → existsSync exe = true →
  ∃ hw, watchers (electronReload existsSync glob mainFile options σ).1
          !! S (length (watchers σ)) = Some hw ∧
    w_paths hw = (if decide (forceHardReset options = Some true)
                  then [mainFile; glob] else [mainFile]) ∧
    w_listeners hw = [(true, HardReset (Some exe) (hardResetMethod options)
                               (electronArgv options) (appArgv options))] ∧
    w_closed hw = false ∧
    (∀ k, k ≠ "ignored" → w_options hw !! k = watchOptions options !! k) ∧
    w_options hw !! "ignored"
    = match watchOptions options !! "ignored" with
      | Some v => Some v
      | None => Some (WMatchers [MIgnoredPaths])
      end.
Proof.
  intros He Hne Hex.
  assert (Hopt : ∀ k,
    hard_options options !! k
    = match watchOptions options !! k with
      | Some v => Some v
      | None => if decide (k = "ignored")
                then Some (WMatchers [MIgnoredPaths]) else None
      end).
  { intros k. unfold hard_options, Object_assign. rewrite lookup_union.
    destruct (watchOptions options !! k) as [v|] eqn:Hk.
    - by destruct ({[_ := _]} !! k).
    - destruct (decide (k = "ignored")) as [->|Hk'].
      + by rewrite lookup_singleton_eq.
      + by rewrite lookup_singleton_ne. }
  assert (Hlook : ∀ (ws : list FSWatcher) a b, (ws ++ [a; b]) !! S (length ws) = Some b).
  { intros ws a b. rewrite (lookup_app_r ws) by lia.
    by replace (S (length ws) - length ws) with 1 by lia. }
  destruct (decide (forceHardReset options = Some true)) as [Hf|Hf].
  - rewrite electronReload_forced by (by rewrite ?He; try apply truthy_Some).
    eexists. split; [apply Hlook|]. simpl. unfold hard_listener. rewrite He.
    split_and!; [done..| |].
    + intros k Hk. rewrite Hopt. destruct (watchOptions options !! k); [done|].
      by rewrite decide_False.
    + rewrite Hopt. by destruct (watchOptions options !! "ignored").
  - rewrite electronReload_hard by (by rewrite ?He; try apply truthy_Some).
    eexists. split; [apply Hlook|]. simpl. unfold hard_listener. rewrite He.
    split_and!; [done..| |].
    + intros k Hk. rewrite Hopt. destruct (watchOptions options !! k); [done|].
      by rewrite decide_False.
    + rewrite Hopt. by destruct (watchOptions options !! "ignored").
Qed.

Lemma hard_watcher_setup_witness :
  ∃ hw, watchers (electronReload (λ _, true) "*" "main.js"
                    (with_electron "/usr/bin/electron" (Some true)) init).1
          !! 1 = Some hw ∧
    w_paths hw = ["main.js"; "*"] ∧
    w_options hw !! "ignored" = Some (WMatchers [MIgnoredPaths]).
Proof.
  destruct (hard_watcher_setup (λ _, true) "*" "main.js"
              (with_electron "/usr/bin/electron" (Some true)) init
              "/usr/bin/electron")
    as (hw & Hw & Hp & _ & _ & _ & Hi); [reflexivity|discriminate|reflexivity|].
  exists hw. split_and!; [exact Hw|exact Hp|exact Hi].
Defined.
